(** * weird-trt-thing: the fuzzer of [fuzzer.cc]

    A shallow embedding of [src/fuzzer.cc] and the properties of its
    tensor-size computation, of its pinned-buffer fill and of the order in
    which [main] drives the two execution contexts.

    Conventions.
    - C++ [int] and [int32_t] are [Z] with the two's-complement wrap-around
      written out ([wrap_int]); [size_t] and [uint64_t] are [Z] reduced modulo
      [2^64].  As in CompCert's semantics of C, signed arithmetic wraps, while
      an access outside an array and a remainder by zero have no defined
      result ([Undefined]).
    - A C++ exception that propagates is the outcome [Throw]; [std::abort()]
      is [Abort].  [main] has no handler, so either one ends the process.
    - TensorRT and the CUDA runtime are external: what they answer is given by
      a [Platform], and every call made to them is an event of the trace.
    - Left out: the destructors an unwinding exception would run ([main]
      catches nothing).
    - The program is [WithMoves.main], with [WithMoves.set_io]: there the
      moves [std::vector] makes when it grows are followed.  The plain
      [set_io] and [main] are the same code run with vectors that never
      have to move an element; they serve as the reference [WithMoves] is
      compared with, and nothing else is stated about them. *)

From Stdlib Require Import ZArith List String Bool Lia.
Import ListNotations.
Local Open Scope Z_scope.

(** ** Machine integers *)

Module Machine.

(** A value stored in a 32-bit signed [int]. *)
Definition wrap_int (z : Z) : Z := (z + 2 ^ 31) mod 2 ^ 32 - 2 ^ 31.

(** Conversion to [size_t] (64-bit unsigned). *)
Definition to_size_t (z : Z) : Z := z mod 2 ^ 64.

(** A value stored in a [uint64_t]. *)
Definition wrap_uint64 (z : Z) : Z := z mod 2 ^ 64.

Definition INT_MAX : Z := 2 ^ 31 - 1.
Definition INT_MIN : Z := - 2 ^ 31.

End Machine.
Import Machine.

(** ** Outcomes of a C++ computation *)

Inductive exception : Type :=
| invalid_argument (what : string)
| bad_alloc
| runtime_error (what : string).

Inductive outcome (A : Type) : Type :=
| Ok (a : A)
| Throw (e : exception)
| Abort
| Undefined.

Arguments Ok {A} a.
Arguments Throw {A} e.
Arguments Abort {A}.
Arguments Undefined {A}.

Definition obind {A B : Type} (o : outcome A) (k : A -> outcome B) : outcome B :=
  match o with
  | Ok a => k a
  | Throw e => Throw e
  | Abort => Abort
  | Undefined => Undefined
  end.

Declare Scope outcome_scope.
Delimit Scope outcome_scope with outcome.
Notation "'let*' x ':=' c 'in' k" := (obind c (fun x => k))
  (at level 10, x name, c at level 100, k at level 200) : outcome_scope.
Local Open Scope outcome_scope.

(** ** The part of the TensorRT interface the source uses

    [NvInfer.h] and [NvInferRuntime.h] belong to TensorRT, not to this
    repository.  The source names the enumerators below and reads the fields
    below; the declarations follow the TensorRT 8.6 headers of the container
    the README builds in. *)

Module nvinfer1.

(** [enum class DataType : int32_t].  The source names seven enumerators;
    [kUnlisted raw] is any other value of the underlying type. *)
Inductive DataType : Type :=
| kFLOAT | kHALF | kINT8 | kINT32 | kBOOL | kUINT8 | kFP8
| kUnlisted (raw : Z).

(** [enum class TensorFormat : int32_t]. *)
Inductive TensorFormat : Type :=
| kLINEAR | kCHW2 | kHWC8 | kCHW4 | kCHW16 | kCHW32 | kDHWC8 | kCDHW32
| kHWC | kDLA_LINEAR | kDLA_HWC4 | kHWC16 | kDHWC.

Inductive TensorIOMode : Type := kNONE | kINPUT | kOUTPUT.

(** [Dims]: [int32_t nbDims; int32_t d[MAX_DIMS];].  The array is the list
    [d]; its length is the capacity [MAX_DIMS], of which the first [nbDims]
    slots are the tensor's extents. *)
Definition MAX_DIMS : Z := 8.

Record Dims : Type := mkDims { nbDims : Z; d : list Z }.

(** [ICudaEngine], as far as the source queries it. *)
Record ICudaEngine : Type := mkEngine {
  getNbIOTensors : Z;
  getIOTensorName : Z -> string;
  getTensorIOMode : string -> TensorIOMode;
  getTensorDataType : string -> DataType;
  getTensorFormat : string -> TensorFormat;
  getTensorComponentsPerElement : string -> Z;
  getTensorVectorizedDim : string -> Z
}.

(** [IExecutionContext]: its address, its engine and its tensor shapes. *)
Record IExecutionContext : Type := mkContext {
  context_ptr : Z;
  getEngine : ICudaEngine;
  getTensorShape : string -> Dims
}.

End nvinfer1.
Import nvinfer1.

Definition TensorFormat_eqb (a b : TensorFormat) : bool :=
  match a, b with
  | kLINEAR, kLINEAR | kCHW2, kCHW2 | kHWC8, kHWC8 | kCHW4, kCHW4
  | kCHW16, kCHW16 | kCHW32, kCHW32 | kDHWC8, kDHWC8 | kCDHW32, kCDHW32
  | kHWC, kHWC | kDLA_LINEAR, kDLA_LINEAR | kDLA_HWC4, kDLA_HWC4
  | kHWC16, kHWC16 | kDHWC, kDHWC => true
  | _, _ => false
  end.

(** ** [sizeof_dtype] (lines 22-33) *)

Definition sizeof_dtype (dtype : DataType) : outcome Z :=
  match dtype with
  | kFLOAT => Ok 4
  | kHALF => Ok 2
  | kINT8 => Ok 1
  | kINT32 => Ok 4
  | kBOOL => Ok 1
  | kUINT8 => Ok 1
  | kFP8 => Ok 1
  | kUnlisted _ => Throw (invalid_argument "dtype must be variant of DataType")
  end.

(** ** [sizeof_tensor] (lines 35-53) *)

(** [shape.d[i]] as an rvalue. *)
Definition d_get (shape : Dims) (i : Z) : outcome Z :=
  if (0 <=? i) && (i <? Z.of_nat (List.length (d shape))) then
    match nth_error (d shape) (Z.to_nat i) with
    | Some x => Ok x
    | None => Undefined
    end
  else Undefined.

Fixpoint list_set (l : list Z) (n : nat) (x : Z) : list Z :=
  match l, n with
  | [], _ => []
  | _ :: t, O => x :: t
  | h :: t, S n' => h :: list_set t n' x
  end.

(** [shape.d[i] = x]. *)
Definition d_set (shape : Dims) (i : Z) (x : Z) : outcome Dims :=
  if (0 <=? i) && (i <? Z.of_nat (List.length (d shape))) then
    Ok (mkDims (nbDims shape) (list_set (d shape) (Z.to_nat i) x))
  else Undefined.

(** C++ [a % b] on [int]: truncated remainder, undefined for [b = 0] and for
    [INT_MIN % -1]. *)
Definition int_rem (a b : Z) : outcome Z :=
  if b =? 0 then Undefined
  else if (a =? INT_MIN) && (b =? -1) then Undefined
  else Ok (Z.rem a b).

(** Line 43:
    [shape.d[vectorized_dimension] +=
       components_per_element - (shape.d[vectorized_dimension] % components_per_element);] *)
Definition pad_dimension (shape : Dims)
    (vectorized_dimension components_per_element : Z) : outcome Dims :=
  let* x := d_get shape vectorized_dimension in
  let* r := int_rem x components_per_element in
  d_set shape vectorized_dimension
        (wrap_int (x + wrap_int (components_per_element - r))).

(** Lines 36-44: the shape the product is taken of. *)
Definition padded_shape (context : IExecutionContext) (name : string) : outcome Dims :=
  let shape := getTensorShape context name in
  let format := getTensorFormat (getEngine context) name in
  if negb (TensorFormat_eqb format kLINEAR) then
    let vectorized_dimension := getTensorComponentsPerElement (getEngine context) name in
    let components_per_element := getTensorComponentsPerElement (getEngine context) name in
    pad_dimension shape vectorized_dimension components_per_element
  else Ok shape.

(** Lines 47-49: [for (int dim = 0; dim < shape.nbDims; dim++) size *= shape.d[dim];]
    with [todo] the iterations left. *)
Fixpoint multiply_extents (shape : Dims) (dim : Z) (todo : nat) (size : Z) : outcome Z :=
  match todo with
  | O => Ok size
  | S todo' =>
      let* x := d_get shape dim in
      multiply_extents shape (dim + 1) todo' (wrap_int (size * x))
  end.

(** Lines 46-52: [auto size = 1] is an [int]; the [uint8_t] width is promoted
    to [int]; the [return] converts to [size_t]. *)
Definition accumulate_size (shape : Dims) (dtype : DataType) : outcome Z :=
  let size := 1 in
  let* size := multiply_extents shape 0 (Z.to_nat (nbDims shape)) size in
  let* width := sizeof_dtype dtype in
  let size := wrap_int (size * width) in
  Ok (to_size_t size).

Definition sizeof_tensor (context : IExecutionContext) (name : string) : outcome Z :=
  let dtype := getTensorDataType (getEngine context) name in
  let* shape := padded_shape context name in
  accumulate_size shape dtype.

(** ** Host memory and the random engine *)

(** Byte-addressed host memory: the value of every byte. *)
Definition memory : Type := Z -> Z.

Definition store_byte (mem : memory) (addr : Z) (b : Z) : memory :=
  fun a => if a =? addr then b else mem a.

(** Byte [j] of the object representation of the unsigned value [v]
    (little-endian, as on the hosts CUDA runs on). *)
Definition byte_of (v : Z) (j : Z) : Z := (v / 256 ^ j) mod 256.

(** Storing the [n] bytes [j, j+1, ...] of [v] from [addr + j] on. *)
Fixpoint store_bytes (mem : memory) (addr : Z) (v : Z) (j : Z) (n : nat) : memory :=
  match n with
  | O => mem
  | S n' => store_bytes (store_byte mem (addr + j) (byte_of v j)) addr v (j + 1) n'
  end.

(** [std::default_random_engine]: which engine that is, is left to the
    standard library.  [generate_word] is its [operator()] and
    [sizeof_rand_t] is [sizeof(std::default_random_engine::result_type)]. *)
Record RandomEngine : Type := mkRandomEngine {
  engine_state : Type;
  default_constructed : engine_state;
  generate_word : engine_state -> Z * engine_state;
  sizeof_rand_t : Z
}.

(** libstdc++: [default_random_engine] is [minstd_rand0], a
    [linear_congruential_engine<uint_fast32_t, 16807, 0, 2147483647>] seeded
    with 1; [uint_fast32_t] takes 8 bytes on x86-64 Linux. *)
Definition minstd_rand0 : RandomEngine :=
  mkRandomEngine Z 1
    (fun x => let x' := (16807 * x) mod 2147483647 in (x', x'))
    8.

Module HostMemory.
Record t : Type := mk { ptr_ : Z; size_ : Z }.
End HostMemory.
Abbreviation HostMemory := HostMemory.t.

Module IOBuffers.
Record t : Type := mk { inputs : list HostMemory; outputs : list HostMemory }.
End IOBuffers.
Abbreviation IOBuffers := IOBuffers.t.

Module Stream.
Record t : Type := mk { ptr_ : Z }.
End Stream.
Abbreviation Stream := Stream.t.

Module Graph.
Record t : Type := mk { ptr_ : Z }.
End Graph.
Abbreviation Graph := Graph.t.

Module GraphExec.
Record t : Type := mk { ptr_ : Z }.
End GraphExec.
Abbreviation GraphExec := GraphExec.t.

Section Generate.

Variable R : RandomEngine.

(** [*first = g()] for one [rand_t]. *)
Definition store_word (mem : memory) (addr : Z) (v : Z) : memory :=
  store_bytes mem addr v 0 (Z.to_nat (sizeof_rand_t R)).

(** [std::generate(first, first + count, std::ref(re))]:
    [for (; first != last; ++first) *first = re();] *)
Fixpoint generate (mem : memory) (first : Z) (count : nat) (re : engine_state R)
  : memory * engine_state R :=
  match count with
  | O => (mem, re)
  | S count' =>
      let (v, re') := generate_word R re in
      generate (store_word mem first v) (first + sizeof_rand_t R) count' re'
  end.

(** The effect of [HostMemory::randomize] (lines 86-89) on the host memory
    and on the engine. *)
Definition randomize_region (m : HostMemory) (mem : memory) (re : engine_state R)
  : memory * engine_state R :=
  generate mem (HostMemory.ptr_ m)
           (Z.to_nat (HostMemory.size_ m / sizeof_rand_t R)) re.

(** The engine after [k] draws, and the [k]-th value drawn (from 0). *)
Fixpoint advance (k : nat) (re : engine_state R) : engine_state R :=
  match k with
  | O => re
  | S k' => advance k' (snd (generate_word R re))
  end.

Definition drawn (k : nat) (re : engine_state R) : Z :=
  fst (generate_word R (advance k re)).

(** The buffers [ms] filled one after the other, every buffer drawing from
    the same engine. *)
Fixpoint randomize_regions (ms : list HostMemory) (mem : memory) (re : engine_state R)
  : memory * engine_state R :=
  match ms with
  | [] => (mem, re)
  | m :: ms' =>
      let (mem', re') := randomize_region m mem re in
      randomize_regions ms' mem' re'
  end.

End Generate.

(** ** The platform and the trace

    Every call into TensorRT, the CUDA runtime or the standard streams is an
    [Event], recorded in the order the program makes it.  [randomized] marks
    the host filling a buffer; it is no external call and cannot fail. *)

Inductive Event : Type :=
| createInferRuntime
| ifstream_open (path : string)
| deserializeCudaEngine (runtime : Z) (path : string)
| createExecutionContext (engine : Z)
| cudaMallocHost (size : Z)
| cudaFreeHost (ptr : Z)
| setInputTensorAddress (context : Z) (name : string) (ptr : Z)
| setTensorAddress (context : Z) (name : string) (ptr : Z)
| cudaStreamCreate
| cudaStreamSynchronize (stream : Z)
| cudaStreamBeginCapture (stream : Z)
| cudaStreamEndCapture (stream : Z)
| cudaGraphInstantiate (graph : Z)
| cudaGraphLaunch (graph_exec : Z) (stream : Z)
| enqueueV3 (context : Z) (stream : Z)
| cout_counter (i : Z)
| randomized (ptr : Z) (size : Z).

(** What the outside answers.  [respond history call] is [None] when the call
    reports failure (an error code, a null pointer, [false]) and [Some v] when
    it succeeds, [v] being the pointer or handle it hands back (if any).
    [engine_behind] and [shape_behind] are the introspection data behind an
    execution context. *)
Record Platform : Type := mkPlatform {
  respond : list Event -> Event -> option Z;
  engine_behind : Z -> ICudaEngine;
  shape_behind : Z -> string -> Dims
}.

(** A computation reads the calls made so far and the host memory; it yields
    an outcome, the events it adds to the trace and the memory it leaves. *)
Record Run (A : Type) : Type := mkRun {
  result : outcome A;
  emitted : list Event;
  heap : memory
}.

Arguments mkRun {A} result emitted heap.
Arguments result {A} r.
Arguments emitted {A} r.
Arguments heap {A} r.

Definition M (A : Type) : Type := list Event -> memory -> Run A.

Definition ret {A : Type} (a : A) : M A := fun _ mem => mkRun (Ok a) [] mem.

(** The run [r], after the events [before]. *)
Definition prepend {A : Type} (before : list Event) (r : Run A) : Run A :=
  mkRun (result r) (before ++ emitted r) (heap r).

Definition bind {A B : Type} (c : M A) (k : A -> M B) : M B :=
  fun history mem =>
    let r := c history mem in
    match result r with
    | Ok a => prepend (emitted r) (k a (history ++ emitted r) (heap r))
    | Throw e => mkRun (Throw e) (emitted r) (heap r)
    | Abort => mkRun Abort (emitted r) (heap r)
    | Undefined => mkRun Undefined (emitted r) (heap r)
    end.

Definition throw {A : Type} (e : exception) : M A := fun _ mem => mkRun (Throw e) [] mem.

Definition abort {A : Type} : M A := fun _ mem => mkRun Abort [] mem.

Definition lift {A : Type} (o : outcome A) : M A := fun _ mem => mkRun o [] mem.

Declare Scope fuzzer_scope.
Delimit Scope fuzzer_scope with fuzzer.
Notation "x <- c1 ;; c2" := (bind c1 (fun x => c2))
  (at level 61, c1 at next level, right associativity) : fuzzer_scope.
Notation "c1 ;; c2" := (bind c1 (fun _ => c2))
  (at level 61, right associativity) : fuzzer_scope.
Local Open Scope fuzzer_scope.

Section Fuzzer.

Variable P : Platform.
Variable R : RandomEngine.

(** An external call: recorded, and answered by the platform. *)
Definition call (e : Event) : M (option Z) :=
  fun history mem => mkRun (Ok (respond P history e)) [e] mem.

(** The failure check that follows a call: [throw] on failure. *)
Definition check (r : option Z) (e : exception) : M Z :=
  match r with
  | Some v => ret v
  | None => throw e
  end.

(** *** [HostMemory] (lines 55-94) *)

(** [HostMemory(size_t size)]. *)
Definition HostMemory_new (size : Z) : M HostMemory :=
  err <- call (cudaMallocHost size) ;;
  ptr <- check err bad_alloc ;;
  ret (HostMemory.mk ptr size).

(** [~HostMemory()]. *)
Definition HostMemory_delete (m : HostMemory) : M unit :=
  err <- call (cudaFreeHost (HostMemory.ptr_ m)) ;;
  match err with
  | Some _ => ret tt
  | None => abort
  end.

(** What the move constructor leaves behind: a null pointer and size 0. *)
Definition moved_from : HostMemory := HostMemory.mk 0 0.

(** [HostMemory::randomize]: the fill, and its mark in the trace. *)
Definition HostMemory_randomize (m : HostMemory) (re : engine_state R)
  : M (engine_state R) :=
  fun _ mem =>
    let (mem', re') := randomize_region R m mem re in
    mkRun (Ok re') [randomized (HostMemory.ptr_ m) (HostMemory.size_ m)] mem'.

(** *** [IOBuffers] (lines 96-104) *)

(** [std::for_each(ms.begin(), ms.end(), [&re](HostMemory & m) { m.randomize(re); })]. *)
Fixpoint for_each_randomize (ms : list HostMemory) (re : engine_state R)
  : M (engine_state R) :=
  match ms with
  | [] => ret re
  | m :: ms' => re' <- HostMemory_randomize m re ;; for_each_randomize ms' re'
  end.

Definition IOBuffers_randomize (b : IOBuffers) (re : engine_state R)
  : M (engine_state R) :=
  re <- for_each_randomize (IOBuffers.inputs b) re ;;
  for_each_randomize (IOBuffers.outputs b) re.

(** *** [set_io] (lines 106-130), with vectors that move nothing

    [push_back] is a plain append here, as it is when the vector has
    storage to spare.  What the program does when a vector is full is in
    [WithMoves.set_io] below. *)

Fixpoint set_io_from (context : IExecutionContext) (idx : Z) (todo : nat)
    (buffers : IOBuffers) : M IOBuffers :=
  match todo with
  | O => ret buffers
  | S todo' =>
      let name := getIOTensorName (getEngine context) idx in
      let mode := getTensorIOMode (getEngine context) name in
      size <- lift (sizeof_tensor context name) ;;
      buffer <- HostMemory_new size ;;
      buffers' <-
        match mode with
        | kINPUT =>
            call (setInputTensorAddress (context_ptr context) name (HostMemory.ptr_ buffer)) ;;
            ret (IOBuffers.mk (IOBuffers.inputs buffers ++ [buffer]) (IOBuffers.outputs buffers))
        | kOUTPUT =>
            call (setTensorAddress (context_ptr context) name (HostMemory.ptr_ buffer)) ;;
            ret (IOBuffers.mk (IOBuffers.inputs buffers) (IOBuffers.outputs buffers ++ [buffer]))
        | kNONE => abort
        end ;;
      (* the moved-from [buffer] leaves scope *)
      HostMemory_delete moved_from ;;
      set_io_from context (idx + 1) todo' buffers'
  end.

Definition set_io (context : IExecutionContext) : M IOBuffers :=
  let num_io := getNbIOTensors (getEngine context) in
  set_io_from context 0 (Z.to_nat num_io) (IOBuffers.mk [] []).

(** *** [Stream], [Graph], [GraphExec], [try_enqueue] (lines 132-210) *)

Definition Stream_new : M Stream :=
  err <- call cudaStreamCreate ;;
  ptr <- check err (runtime_error "failed to create stream") ;;
  ret (Stream.mk ptr).

Definition Stream_synchronize (s : Stream) : M unit :=
  err <- call (cudaStreamSynchronize (Stream.ptr_ s)) ;;
  check err (runtime_error "failed to synchronize stream") ;;
  ret tt.

Definition Stream_begin_capture (s : Stream) : M unit :=
  err <- call (cudaStreamBeginCapture (Stream.ptr_ s)) ;;
  check err (runtime_error "failed to begin capture") ;;
  ret tt.

Definition Graph_new (stream : Stream) : M Graph :=
  err <- call (cudaStreamEndCapture (Stream.ptr_ stream)) ;;
  ptr <- check err (runtime_error "failed to end capture") ;;
  ret (Graph.mk ptr).

Definition GraphExec_new (graph : Graph) : M GraphExec :=
  err <- call (cudaGraphInstantiate (Graph.ptr_ graph)) ;;
  ptr <- check err (runtime_error "could not instantiate graph as executable") ;;
  ret (GraphExec.mk ptr).

Definition GraphExec_launch (g : GraphExec) (stream : Stream) : M unit :=
  err <- call (cudaGraphLaunch (GraphExec.ptr_ g) (Stream.ptr_ stream)) ;;
  check err (runtime_error "failed to launch graph instance") ;;
  ret tt.

Definition try_enqueue (context : IExecutionContext) (stream : Stream) : M unit :=
  ok <- call (enqueueV3 (context_ptr context) (Stream.ptr_ stream)) ;;
  check ok (runtime_error "failed to enqueue ExecutionContext") ;;
  ret tt.

(** *** [main] (lines 213-293) *)

(** The object behind a context pointer. *)
Definition context_at (ptr : Z) : IExecutionContext :=
  mkContext ptr (engine_behind P ptr) (shape_behind P ptr).

(** Lines 260-278: the test enqueue and the graph capture of both contexts. *)
Definition warm_up_and_capture (context0 context1 : IExecutionContext)
    (stream0 stream1 : Stream) : M (GraphExec * GraphExec) :=
  (* test enqueue *)
  try_enqueue context0 stream0 ;;
  Stream_synchronize stream0 ;;
  try_enqueue context1 stream1 ;;
  Stream_synchronize stream1 ;;
  (* capture graphs *)
  Stream_begin_capture stream0 ;;
  try_enqueue context0 stream0 ;;
  graph0 <- Graph_new stream0 ;;
  graph_exec0 <- GraphExec_new graph0 ;;
  Stream_synchronize stream0 ;;
  Stream_begin_capture stream1 ;;
  try_enqueue context1 stream1 ;;
  graph1 <- Graph_new stream1 ;;
  graph_exec1 <- GraphExec_new graph1 ;;
  Stream_synchronize stream1 ;;
  ret (graph_exec0, graph_exec1).

(** The locals of [main] the loop works on. *)
Record Locals : Type := mkLocals {
  buffers0 : IOBuffers;
  buffers1 : IOBuffers;
  stream0 : Stream;
  stream1 : Stream;
  graph_exec0 : GraphExec;
  graph_exec1 : GraphExec
}.

(** Lines 283-289: the body of the loop, for counter [i] and engine [re]. *)
Definition fuzz_iteration (l : Locals) (i : Z) (re : engine_state R)
  : M (engine_state R) :=
  call (cout_counter i) ;;
  re <- IOBuffers_randomize (buffers0 l) re ;;
  re <- IOBuffers_randomize (buffers1 l) re ;;
  GraphExec_launch (graph_exec0 l) (stream0 l) ;;
  GraphExec_launch (graph_exec1 l) (stream1 l) ;;
  Stream_synchronize (stream0 l) ;;
  Stream_synchronize (stream1 l) ;;
  ret re.

(** Where the loop stands when it is no longer followed: still iterating,
    about to test its condition for counter [i], or left. *)
Inductive LoopState : Type :=
| Iterating (i : Z) (re : engine_state R)
| Left.

(** The condition of [for (uint64_t i = 0; true; i++)]. *)
Definition loop_condition (i : Z) : bool := true.

(** Line 282-290, followed for at most [fuel] iterations. *)
Fixpoint fuzz_loop (fuel : nat) (l : Locals) (i : Z) (re : engine_state R)
  : M LoopState :=
  match fuel with
  | O => ret (Iterating i re)
  | S fuel' =>
      if loop_condition i then
        re' <- fuzz_iteration l i re ;;
        fuzz_loop fuel' l (wrap_uint64 (i + 1)) re'
      else ret Left
  end.

(** Lines 214-258: the runtime, the two plans, engines and contexts, the I/O
    buffers and the streams; with the plain [set_io]. *)
Definition load_and_bind
  : M (IExecutionContext * IExecutionContext * (IOBuffers * IOBuffers) * (Stream * Stream)) :=
  runtime_inner <- call createInferRuntime ;;
  runtime <- check runtime_inner (runtime_error "failed to create runtime") ;;
  (* open plan files *)
  plan0_file <- call (ifstream_open "model0.plan") ;;
  check plan0_file (runtime_error "failed to open plan0_path") ;;
  plan1_file <- call (ifstream_open "model1.plan") ;;
  check plan1_file (runtime_error "failed to open plan1_path") ;;
  (* construct engines from plans *)
  engine0_inner <- call (deserializeCudaEngine runtime "model0.plan") ;;
  engine0 <- check engine0_inner (runtime_error "failed to deserialize plan0") ;;
  engine1_inner <- call (deserializeCudaEngine runtime "model1.plan") ;;
  engine1 <- check engine1_inner (runtime_error "failed to deserialize plan1") ;;
  (* construct contexts from engines *)
  context0_inner <- call (createExecutionContext engine0) ;;
  context0 <- check context0_inner (runtime_error "failed to create context0 from engine0") ;;
  context1_inner <- call (createExecutionContext engine1) ;;
  context1 <- check context1_inner (runtime_error "failed to create context1 from engine1") ;;
  (* set io buffers *)
  buffers0 <- set_io (context_at context0) ;;
  buffers1 <- set_io (context_at context1) ;;
  (* set up streams *)
  stream0 <- Stream_new ;;
  stream1 <- Stream_new ;;
  ret (context_at context0, context_at context1, (buffers0, buffers1), (stream0, stream1)).

(** What follows the loop: line 292, [return 0;], once the loop is left.
    [Some code] is [return code;], [None] is a run still inside the loop. *)
Definition after_loop (state : LoopState) : M (option Z) :=
  match state with
  | Iterating _ _ => ret None
  | Left => ret (Some 0)
  end.

(** [main] with the plain [set_io], its loop followed for at most [fuel]
    iterations. *)
Definition main (fuel : nat) : M (option Z) :=
  bound <- load_and_bind ;;
  let '(context0, context1, (buffers0, buffers1), (stream0, stream1)) := bound in
  execs <- warm_up_and_capture context0 context1 stream0 stream1 ;;
  let '(graph_exec0, graph_exec1) := execs in
  (* run fuzz *)
  let re := default_constructed R in
  state <- fuzz_loop fuel
             (mkLocals buffers0 buffers1 stream0 stream1 graph_exec0 graph_exec1) 0 re ;;
  after_loop state.

End Fuzzer.

Arguments Iterating {R} i re.
Arguments Left {R}.

(** ** [set_io] and [main], with the moves of [std::vector]

    [push_back(std::move(buffer))] (lines 119 and 123) move-constructs the
    new element from [buffer] (lines 75-80), which leaves [buffer] with a
    null pointer for its destructor at the end of the loop body.  On a vector
    whose storage is full, [push_back] first takes larger storage,
    move-constructs the elements into it and destroys each moved-from
    original (lines 65-70): one [cudaFreeHost] each, and [std::abort] if one
    fails.

    How much storage a full vector takes is the library's choice: [grow n] is
    the capacity chosen for a full vector of [n] elements.  A
    default-constructed vector has capacity 0, and taking storage does not
    fail. *)

(** [HostMemory(HostMemory&& o)] (lines 75-80): the object constructed, and
    [o] as the constructor leaves it. *)
Definition HostMemory_move (o : HostMemory) : HostMemory * HostMemory :=
  (HostMemory.mk (HostMemory.ptr_ o) (HostMemory.size_ o), HostMemory.mk 0 0).

Module Vector.
Record t : Type := mk { elements : list HostMemory; capacity : nat }.
End Vector.
Abbreviation Vector := Vector.t.

(** [IOBuffers] while [set_io] fills it. *)
Module IOVectors.
Record t : Type := mk { inputs : Vector; outputs : Vector }.
End IOVectors.
Abbreviation IOVectors := IOVectors.t.

(** The buffers the vectors hold: [IOBuffers] as [set_io] returns it. *)
Definition held (buffers : IOVectors) : IOBuffers :=
  IOBuffers.mk (Vector.elements (IOVectors.inputs buffers))
               (Vector.elements (IOVectors.outputs buffers)).

(** The choice of libstdc++: storage for [n + max n 1] elements. *)
Definition libstdcxx_growth (n : nat) : nat := (n + Nat.max n 1)%nat.

Module WithMoves.

Section Fuzzer.

Variable P : Platform.
Variable R : RandomEngine.
Variable grow : nat -> nat.

(** The elements of a full vector on their way to the new storage: each is
    move-constructed there, and the original destroyed. *)
Fixpoint relocate (old : list HostMemory) : M (list HostMemory) :=
  match old with
  | [] => ret []
  | o :: rest =>
      let (moved, o') := HostMemory_move o in
      HostMemory_delete P o' ;;
      rest' <- relocate rest ;;
      ret (moved :: rest')
  end.

(** [v.push_back(std::move(m))]: the vector, and [m] as it is left. *)
Definition push_back (v : Vector) (m : HostMemory) : M (Vector * HostMemory) :=
  let n := List.length (Vector.elements v) in
  let (element, m') := HostMemory_move m in
  if Nat.eqb n (Vector.capacity v) then
    moved <- relocate (Vector.elements v) ;;
    ret (Vector.mk (moved ++ [element]) (grow n), m')
  else ret (Vector.mk (Vector.elements v ++ [element]) (Vector.capacity v), m').

(** [set_io] (lines 106-130). *)
Fixpoint set_io_from (context : IExecutionContext) (idx : Z) (todo : nat)
    (buffers : IOVectors) : M IOVectors :=
  match todo with
  | O => ret buffers
  | S todo' =>
      let name := getIOTensorName (getEngine context) idx in
      let mode := getTensorIOMode (getEngine context) name in
      size <- lift (sizeof_tensor context name) ;;
      buffer <- HostMemory_new P size ;;
      pushed <-
        match mode with
        | kINPUT =>
            call P (setInputTensorAddress (context_ptr context) name (HostMemory.ptr_ buffer)) ;;
            inputs <- push_back (IOVectors.inputs buffers) buffer ;;
            ret (IOVectors.mk (fst inputs) (IOVectors.outputs buffers), snd inputs)
        | kOUTPUT =>
            call P (setTensorAddress (context_ptr context) name (HostMemory.ptr_ buffer)) ;;
            outputs <- push_back (IOVectors.outputs buffers) buffer ;;
            ret (IOVectors.mk (IOVectors.inputs buffers) (fst outputs), snd outputs)
        | kNONE => abort
        end ;;
      (* [buffer], as the move left it, leaves scope *)
      HostMemory_delete P (snd pushed) ;;
      set_io_from context (idx + 1) todo' (fst pushed)
  end.

Definition set_io (context : IExecutionContext) : M IOBuffers :=
  let num_io := getNbIOTensors (getEngine context) in
  buffers <- set_io_from context 0 (Z.to_nat num_io)
               (IOVectors.mk (Vector.mk [] 0) (Vector.mk [] 0)) ;;
  ret (held buffers).

(** Lines 214-250 of [main]: the runtime, the two plans, the engines and the
    contexts. *)
Definition load : M (Z * Z) :=
  runtime_inner <- call P createInferRuntime ;;
  runtime <- check runtime_inner (runtime_error "failed to create runtime") ;;
  (* open plan files *)
  plan0_file <- call P (ifstream_open "model0.plan") ;;
  check plan0_file (runtime_error "failed to open plan0_path") ;;
  plan1_file <- call P (ifstream_open "model1.plan") ;;
  check plan1_file (runtime_error "failed to open plan1_path") ;;
  (* construct engines from plans *)
  engine0_inner <- call P (deserializeCudaEngine runtime "model0.plan") ;;
  engine0 <- check engine0_inner (runtime_error "failed to deserialize plan0") ;;
  engine1_inner <- call P (deserializeCudaEngine runtime "model1.plan") ;;
  engine1 <- check engine1_inner (runtime_error "failed to deserialize plan1") ;;
  (* construct contexts from engines *)
  context0_inner <- call P (createExecutionContext engine0) ;;
  context0 <- check context0_inner (runtime_error "failed to create context0 from engine0") ;;
  context1_inner <- call P (createExecutionContext engine1) ;;
  context1 <- check context1_inner (runtime_error "failed to create context1 from engine1") ;;
  ret (context0, context1).

(** Lines 252-258 of [main]: the I/O buffers and the streams. *)
Definition bind_and_create (context0 context1 : Z)
  : M (IExecutionContext * IExecutionContext * (IOBuffers * IOBuffers) * (Stream * Stream)) :=
  (* set io buffers *)
  buffers0 <- set_io (context_at P context0) ;;
  buffers1 <- set_io (context_at P context1) ;;
  (* set up streams *)
  stream0 <- Stream_new P ;;
  stream1 <- Stream_new P ;;
  ret (context_at P context0, context_at P context1, (buffers0, buffers1), (stream0, stream1)).

(** Lines 214-258 of [main]. *)
Definition load_and_bind
  : M (IExecutionContext * IExecutionContext * (IOBuffers * IOBuffers) * (Stream * Stream)) :=
  contexts <- load ;;
  bind_and_create (fst contexts) (snd contexts).

(** [main] (lines 213-293), its loop followed for at most [fuel] iterations. *)
Definition main (fuel : nat) : M (option Z) :=
  bound <- load_and_bind ;;
  let '(context0, context1, (buffers0, buffers1), (stream0, stream1)) := bound in
  execs <- warm_up_and_capture P context0 context1 stream0 stream1 ;;
  let '(graph_exec0, graph_exec1) := execs in
  (* run fuzz *)
  let re := default_constructed R in
  state <- fuzz_loop P R fuel
             (mkLocals buffers0 buffers1 stream0 stream1 graph_exec0 graph_exec1) 0 re ;;
  after_loop R state.

End Fuzzer.

End WithMoves.

(** * Vocabulary of the statements *)

(** ** Sizes *)

(** The product of a list of integers, without wrap-around. *)
Definition product (l : list Z) : Z := fold_right Z.mul 1 l.

(** The logical extents of a shape: the first [nbDims] slots of [d]. *)
Definition extents (shape : Dims) : list Z :=
  firstn (Z.to_nat (nbDims shape)) (d shape).

(** The slots of [d] suffice for [nbDims]. *)
Definition fits (shape : Dims) : Prop :=
  (Z.to_nat (nbDims shape) <= List.length (d shape))%nat.

(** The table of the specification: 32-bit float 4, 16-bit float 2, 8-bit
    integer, boolean and 8-bit float 1, 32-bit integer 4; nothing else. *)
Definition tabulated_width (dtype : DataType) : option Z :=
  match dtype with
  | kFLOAT => Some 4
  | kHALF => Some 2
  | kINT8 | kUINT8 | kBOOL | kFP8 => Some 1
  | kINT32 => Some 4
  | kUnlisted _ => None
  end.

(** A context with one I/O tensor, which every name denotes. *)
Definition one_tensor (dtype : DataType) (format : TensorFormat)
    (components_per_element vectorized_dim : Z) (shape : Dims) : IExecutionContext :=
  mkContext 0
    (mkEngine 1 (fun _ => "x"%string) (fun _ => kINPUT) (fun _ => dtype)
              (fun _ => format) (fun _ => components_per_element)
              (fun _ => vectorized_dim))
    (fun _ => shape).

(** The same context, its engine answering the vectorized-dimension query
    with [answer]. *)
Definition with_vectorized_dim (answer : string -> Z) (context : IExecutionContext)
  : IExecutionContext :=
  let e := getEngine context in
  mkContext (context_ptr context)
    (mkEngine (getNbIOTensors e) (getIOTensorName e) (getTensorIOMode e)
              (getTensorDataType e) (getTensorFormat e)
              (getTensorComponentsPerElement e) answer)
    (getTensorShape context).

(** ** Traces *)

(** [l] is a beginning of [full]. *)
Definition is_prefix (l full : list Event) : Prop := exists rest, full = l ++ rest.

(** Every event a computation emits satisfies [Q], whatever the platform
    answers. *)
Definition only {A : Type} (Q : Event -> Prop) (c : M A) : Prop :=
  forall history mem, Forall Q (emitted (c history mem)).

(** The calls of the binding phase, and the events of the loop. *)
Definition binding_event (e : Event) : Prop :=
  match e with
  | createInferRuntime | ifstream_open _ | deserializeCudaEngine _ _
  | createExecutionContext _ | cudaMallocHost _ | cudaFreeHost _
  | setInputTensorAddress _ _ _ | setTensorAddress _ _ _ | cudaStreamCreate => True
  | _ => False
  end.

Definition loop_event (e : Event) : Prop :=
  match e with
  | cout_counter _ | randomized _ _ | cudaGraphLaunch _ _
  | cudaStreamSynchronize _ => True
  | _ => False
  end.

(** The test enqueue of one unit: one execution, then the wait for it. *)
Definition warm_up_events (context stream : Z) : list Event :=
  [enqueueV3 context stream; cudaStreamSynchronize stream].

(** The capture of one unit: begin, one execution, end (which yields
    [graph]), the instantiation of [graph], then a wait. *)
Definition capture_events (context stream graph : Z) : list Event :=
  [cudaStreamBeginCapture stream; enqueueV3 context stream;
   cudaStreamEndCapture stream; cudaGraphInstantiate graph;
   cudaStreamSynchronize stream].

(** Lines 260-278 in full, for unit A [(c0, s0, g0)] and unit B
    [(c1, s1, g1)]. *)
Definition setup_events (c0 s0 g0 c1 s1 g1 : Z) : list Event :=
  warm_up_events c0 s0 ++ warm_up_events c1 s1
  ++ capture_events c0 s0 g0 ++ capture_events c1 s1 g1.

(** The graphs of a setup that got as far as the calls [setup], made after
    the calls [before]: [g0] is what [cudaStreamEndCapture] answered on the
    stream of unit A, [g1] what it answered on the stream of unit B, as soon
    as the call that instantiates the graph is made. *)
Definition captured (P : Platform) (before setup : list Event)
    (c0 s0 g0 c1 s1 g1 : Z) : Prop :=
  let calls := setup_events c0 s0 g0 c1 s1 g1 in
  ((7 < List.length setup)%nat ->
   respond P (before ++ firstn 6 calls) (cudaStreamEndCapture s0) = Some g0)
  /\ ((12 < List.length setup)%nat ->
      respond P (before ++ firstn 11 calls) (cudaStreamEndCapture s1) = Some g1).

(** The executables of a complete setup: [e0] is what [cudaGraphInstantiate]
    answered for [g0], [e1] what it answered for [g1]. *)
Definition instantiated (P : Platform) (before : list Event)
    (c0 s0 g0 c1 s1 g1 e0 e1 : Z) : Prop :=
  let calls := setup_events c0 s0 g0 c1 s1 g1 in
  respond P (before ++ firstn 7 calls) (cudaGraphInstantiate g0) = Some e0
  /\ respond P (before ++ firstn 12 calls) (cudaGraphInstantiate g1) = Some e1.

(** What a run of lines 260-278 after the calls [before] is like: the memory
    is left alone; the trace is a beginning of [setup_events] for graphs as
    the platform answered them, and all of it when the run succeeds, with
    the executables as the platform answered them; a run that does not
    succeed ends in an exception. *)
Definition setup_outcome (P : Platform) (before : list Event) (mem : memory)
    (c0 s0 c1 s1 : Z) (run : Run (GraphExec * GraphExec)) : Prop :=
  heap run = mem
  /\ exists g0 g1 : Z,
       is_prefix (emitted run) (setup_events c0 s0 g0 c1 s1 g1)
       /\ captured P before (emitted run) c0 s0 g0 c1 s1 g1
       /\ match result run with
          | Ok (e0, e1) =>
              emitted run = setup_events c0 s0 g0 c1 s1 g1
              /\ instantiated P before c0 s0 g0 c1 s1 g1
                              (GraphExec.ptr_ e0) (GraphExec.ptr_ e1)
          | Throw _ => True
          | Abort | Undefined => False
          end.

(** The event of filling the buffer [m]. *)
Definition randomized_event (m : HostMemory) : Event :=
  randomized (HostMemory.ptr_ m) (HostMemory.size_ m).

(** The buffers of one unit in the order [IOBuffers::randomize] visits them,
    and those of both units in the order of lines 284-285. *)
Definition buffers_of (b : IOBuffers) : list HostMemory :=
  IOBuffers.inputs b ++ IOBuffers.outputs b.

Definition all_buffers (l : Locals) : list HostMemory :=
  buffers_of (buffers0 l) ++ buffers_of (buffers1 l).

(** Lines 286-289. *)
Definition launch_and_wait (l : Locals) : list Event :=
  [cudaGraphLaunch (GraphExec.ptr_ (graph_exec0 l)) (Stream.ptr_ (stream0 l));
   cudaGraphLaunch (GraphExec.ptr_ (graph_exec1 l)) (Stream.ptr_ (stream1 l));
   cudaStreamSynchronize (Stream.ptr_ (stream0 l));
   cudaStreamSynchronize (Stream.ptr_ (stream1 l))].

(** One full iteration, for counter [i]. *)
Definition iteration_events (l : Locals) (i : Z) : list Event :=
  cout_counter i :: map randomized_event (all_buffers l) ++ launch_and_wait l.

(** The counters of [k] successive iterations from [i] on, and the counter
    after them. *)
Fixpoint counters (k : nat) (i : Z) : list Z :=
  match k with
  | O => []
  | S k' => i :: counters k' (wrap_uint64 (i + 1))
  end.

Fixpoint counter_after (k : nat) (i : Z) : Z :=
  match k with
  | O => i
  | S k' => counter_after k' (wrap_uint64 (i + 1))
  end.

(** The exceptions of lines 286-289. *)
Definition failed_in_loop (ex : exception) : Prop :=
  ex = runtime_error "failed to launch graph instance"
  \/ ex = runtime_error "failed to synchronize stream".

Section LoopVocabulary.

Variable R : RandomEngine.

(** Memory and engine after [k] iterations: each one fills every buffer of
    unit A, then every buffer of unit B, drawing from the one engine. *)
Fixpoint fills (k : nat) (l : Locals) (mem : memory) (re : engine_state R)
  : memory * engine_state R :=
  match k with
  | O => (mem, re)
  | S k' =>
      let (mem', re') := randomize_regions R (all_buffers l) mem re in
      fills k' l mem' re'
  end.

(** What a run of the loop body is like: every buffer is filled, whatever
    happens next; the trace is the counter, the fills and a beginning of
    [launch_and_wait], all of it when the run succeeds. *)
Definition iteration_outcome (l : Locals) (i : Z) (mem : memory) (re : engine_state R)
    (run : Run (engine_state R)) : Prop :=
  heap run = fst (randomize_regions R (all_buffers l) mem re)
  /\ exists rest : list Event,
       emitted run = cout_counter i :: map randomized_event (all_buffers l) ++ rest
       /\ is_prefix rest (launch_and_wait l)
       /\ match result run with
          | Ok re' =>
              re' = snd (randomize_regions R (all_buffers l) mem re)
              /\ rest = launch_and_wait l
          | Throw ex => rest <> [] /\ failed_in_loop ex
          | Abort | Undefined => False
          end.

(** What a run of the loop is like: [done] full iterations, then a beginning
    of the next one, which is empty unless an operation failed. *)
Definition loop_outcome (fuel : nat) (l : Locals) (i : Z) (mem : memory)
    (re : engine_state R) (run : Run (LoopState R)) : Prop :=
  exists (done : nat) (partial : list Event),
    (done <= fuel)%nat
    /\ emitted run = List.concat (map (iteration_events l) (counters done i)) ++ partial
    /\ is_prefix partial (iteration_events l (counter_after done i))
    /\ match result run with
       | Ok state =>
           done = fuel /\ partial = []
           /\ state = Iterating (counter_after fuel i) (snd (fills fuel l mem re))
           /\ heap run = fst (fills fuel l mem re)
       | Throw ex =>
           (done < fuel)%nat /\ partial <> [] /\ failed_in_loop ex
           /\ heap run = fst (fills (S done) l mem re)
       | Abort | Undefined => False
       end.

End LoopVocabulary.

(** ** Buffers and their regions *)

(** The address [a] lies in the region of none of the buffers [ms]. *)
Definition outside (ms : list HostMemory) (a : Z) : Prop :=
  Forall (fun b => ~ (HostMemory.ptr_ b <= a < HostMemory.ptr_ b + HostMemory.size_ b)) ms.

(** The number of whole engine words the buffers [ms] hold together. *)
Definition words_of (R : RandomEngine) (ms : list HostMemory) : nat :=
  fold_right (fun b n => (Z.to_nat (HostMemory.size_ b / sizeof_rand_t R) + n)%nat) O ms.

(** ** [set_io]: what it binds *)

(** The names [getIOTensorName] answers for the indices [idx], [idx + 1], ...
    ([todo] of them), and the I/O tensors of a context in index order. *)
Fixpoint names_from (engine : ICudaEngine) (idx : Z) (todo : nat) : list string :=
  match todo with
  | O => []
  | S todo' => getIOTensorName engine idx :: names_from engine (idx + 1) todo'
  end.

Definition io_tensor_names (context : IExecutionContext) : list string :=
  names_from (getEngine context) 0 (Z.to_nat (getNbIOTensors (getEngine context))).

Definition TensorIOMode_eqb (a b : TensorIOMode) : bool :=
  match a, b with
  | kNONE, kNONE | kINPUT, kINPUT | kOUTPUT, kOUTPUT => true
  | _, _ => false
  end.

(** Of the tensors [bound] to buffers, the buffers of those with I/O mode
    [mode], in order. *)
Definition buffers_with (mode : TensorIOMode) (context : IExecutionContext)
    (bound : list (string * HostMemory)) : list HostMemory :=
  map snd
    (filter (fun nb => TensorIOMode_eqb (getTensorIOMode (getEngine context) (fst nb)) mode)
            bound).

(** How many of the tensors [names] have I/O mode [mode]. *)
Definition count_mode (mode : TensorIOMode) (context : IExecutionContext)
    (names : list string) : nat :=
  List.length
    (filter (fun name => TensorIOMode_eqb (getTensorIOMode (getEngine context) name) mode)
            names).

(** The call that binds the buffer [b] to the tensor [name]. *)
Definition binding_call (context : IExecutionContext) (name : string) (b : HostMemory)
  : Event :=
  match getTensorIOMode (getEngine context) name with
  | kINPUT => setInputTensorAddress (context_ptr context) name (HostMemory.ptr_ b)
  | _ => setTensorAddress (context_ptr context) name (HostMemory.ptr_ b)
  end.

(** The capacity of a vector after [n] [push_back]s on a default-constructed
    one, and the number of elements the next [push_back] moves: all [n] when
    the storage is full, none otherwise. *)
Fixpoint capacity_after (grow : nat -> nat) (n : nat) : nat :=
  match n with
  | O => O
  | S n' => if Nat.eqb n' (capacity_after grow n') then grow n'
            else capacity_after grow n'
  end.

Definition moved_by_push (grow : nat -> nat) (n : nat) : nat :=
  if Nat.eqb n (capacity_after grow n) then n else O.

(** The vector has the capacity its [push_back]s gave it. *)
Definition grown_by_push (grow : nat -> nat) (v : Vector) : Prop :=
  Vector.capacity v = capacity_after grow (List.length (Vector.elements v)).

(** The calls of [set_io] for the tensors [bound], [n_in] inputs and [n_out]
    outputs being bound already: per tensor, the allocation, the binding,
    the release of each element its vector moves, and the release of the
    moved-from local. *)
Fixpoint bound_events (grow : nat -> nat) (context : IExecutionContext)
    (n_in n_out : nat) (bound : list (string * HostMemory)) : list Event :=
  match bound with
  | [] => []
  | nb :: rest =>
      let input :=
        TensorIOMode_eqb (getTensorIOMode (getEngine context) (fst nb)) kINPUT in
      [cudaMallocHost (HostMemory.size_ (snd nb)); binding_call context (fst nb) (snd nb)]
      ++ repeat (cudaFreeHost 0) (moved_by_push grow (if input then n_in else n_out))
      ++ [cudaFreeHost 0]
      ++ bound_events grow context (if input then S n_in else n_in)
                      (if input then n_out else S n_out) rest
  end.

(** The tensor is an input or an output, and its buffer has its size. *)
Definition well_bound (context : IExecutionContext) (nb : string * HostMemory) : Prop :=
  sizeof_tensor context (fst nb) = Ok (HostMemory.size_ (snd nb))
  /\ (getTensorIOMode (getEngine context) (fst nb) = kINPUT
      \/ getTensorIOMode (getEngine context) (fst nb) = kOUTPUT).

(** One of the tensors [names] is neither an input nor an output. *)
Definition has_other_mode (context : IExecutionContext) (names : list string) : Prop :=
  exists name : string,
    In name names /\ getTensorIOMode (getEngine context) name = kNONE.

(** The calls [set_io] makes; the only pointer it frees is null. *)
Definition allocation_call (e : Event) : Prop :=
  match e with
  | cudaMallocHost _ | setInputTensorAddress _ _ _ | setTensorAddress _ _ _ => True
  | cudaFreeHost ptr => ptr = 0
  | _ => False
  end.

(** ** Failures *)

(** The exception [sizeof_dtype] throws. *)
Definition unlisted_type (ex : exception) : Prop :=
  ex = invalid_argument "dtype must be variant of DataType".

(** The exception the source throws when the call [e] fails, for the calls
    whose exception does not depend on where in the run they are made; none
    for the calls whose failure it does not look at or answers with
    [std::abort]. *)
Definition reported_call (e : Event) (ex : exception) : Prop :=
  match e with
  | createInferRuntime => ex = runtime_error "failed to create runtime"
  | ifstream_open path =>
      (path = "model0.plan"%string /\ ex = runtime_error "failed to open plan0_path")
      \/ (path = "model1.plan"%string /\ ex = runtime_error "failed to open plan1_path")
  | deserializeCudaEngine _ path =>
      (path = "model0.plan"%string /\ ex = runtime_error "failed to deserialize plan0")
      \/ (path = "model1.plan"%string /\ ex = runtime_error "failed to deserialize plan1")
  | createExecutionContext _ => False
  | cudaMallocHost _ => ex = bad_alloc
  | cudaStreamCreate => ex = runtime_error "failed to create stream"
  | cudaStreamSynchronize _ => ex = runtime_error "failed to synchronize stream"
  | cudaStreamBeginCapture _ => ex = runtime_error "failed to begin capture"
  | cudaStreamEndCapture _ => ex = runtime_error "failed to end capture"
  | cudaGraphInstantiate _ =>
      ex = runtime_error "could not instantiate graph as executable"
  | cudaGraphLaunch _ _ => ex = runtime_error "failed to launch graph instance"
  | enqueueV3 _ _ => ex = runtime_error "failed to enqueue ExecutionContext"
  | cudaFreeHost _ | setInputTensorAddress _ _ _ | setTensorAddress _ _ _
  | cout_counter _ | randomized _ _ => False
  end.

(** Whether [createExecutionContext] is among the calls [before]. *)
Definition created_before (before : list Event) : bool :=
  existsb (fun e => match e with createExecutionContext _ => true | _ => false end)
          before.

(** The exception the source throws when the call [e], made after the calls
    [before] of the same run, fails: the first [createExecutionContext] is
    reported as context 0 (line 245), the second as context 1 (line 249). *)
Definition reported_as (before : list Event) (e : Event) (ex : exception) : Prop :=
  match e with
  | createExecutionContext _ =>
      ex = runtime_error (if created_before before
                          then "failed to create context1 from engine1"
                          else "failed to create context0 from engine0")
  | _ => reported_call e ex
  end.

(** A computation that throws does so for an unlisted element type, or
    right after a call that failed: that call is the last event, and the
    exception is the one that reports it. *)
Definition fail_fast (P : Platform) {A : Type} (c : M A) : Prop :=
  forall (history : list Event) (mem : memory) (ex : exception),
    result (c history mem) = Throw ex ->
    unlisted_type ex
    \/ exists (before : list Event) (e : Event),
         emitted (c history mem) = before ++ [e]
         /\ respond P (history ++ before) e = None
         /\ reported_call e ex.

(** A computation that ends in [std::abort] does so for the cause [Q], or
    right after a [cudaFreeHost] of the null pointer that failed. *)
Definition abort_cause (P : Platform) (Q : Prop) {A : Type} (c : M A) : Prop :=
  forall (history : list Event) (mem : memory),
    result (c history mem) = Abort ->
    Q \/ exists before : list Event,
           emitted (c history mem) = before ++ [cudaFreeHost 0]
           /\ respond P (history ++ before) (cudaFreeHost 0) = None.

(** Lines 216-250: the calls that load the plans, for the runtime and the
    engines they yield. *)
Definition loading_calls (runtime engine0 engine1 : Z) : list Event :=
  [createInferRuntime;
   ifstream_open "model0.plan"; ifstream_open "model1.plan";
   deserializeCudaEngine runtime "model0.plan";
   deserializeCudaEngine runtime "model1.plan";
   createExecutionContext engine0; createExecutionContext engine1].

Definition stream_or_allocation (e : Event) : Prop :=
  allocation_call e \/ e = cudaStreamCreate.

(** The handles of loading, for a run that made the calls [made], after the
    calls [before]: the runtime that deserialises is the one
    [createInferRuntime] answered, and the engines the contexts are created
    from are the ones deserialised from [model0.plan] and [model1.plan]. *)
Definition loaded (P : Platform) (before made : list Event)
    (runtime engine0 engine1 : Z) : Prop :=
  let calls := loading_calls runtime engine0 engine1 in
  ((3 < List.length made)%nat -> respond P before createInferRuntime = Some runtime)
  /\ ((5 < List.length made)%nat ->
      respond P (before ++ firstn 3 calls) (deserializeCudaEngine runtime "model0.plan")
      = Some engine0)
  /\ ((6 < List.length made)%nat ->
      respond P (before ++ firstn 4 calls) (deserializeCudaEngine runtime "model1.plan")
      = Some engine1).

(** The two units of a run whose binding phase made the calls [binding],
    after the calls [before]: [binding] is the loading, the allocations and
    bindings, then two [cudaStreamCreate]; [c0] and [c1] are what the
    platform answered to the first and to the second
    [createExecutionContext], [s0] and [s1] what it answered to the first
    and to the second [cudaStreamCreate]. *)
Definition units_of (P : Platform) (before binding : list Event)
    (c0 s0 c1 s1 : Z) : Prop :=
  exists (runtime engine0 engine1 : Z) (bound : list Event),
    let calls := loading_calls runtime engine0 engine1 in
    binding = calls ++ bound ++ [cudaStreamCreate; cudaStreamCreate]
    /\ Forall allocation_call bound
    /\ loaded P before binding runtime engine0 engine1
    /\ respond P (before ++ firstn 5 calls) (createExecutionContext engine0) = Some c0
    /\ respond P (before ++ firstn 6 calls) (createExecutionContext engine1) = Some c1
    /\ respond P (before ++ calls ++ bound) cudaStreamCreate = Some s0
    /\ respond P (before ++ calls ++ bound ++ [cudaStreamCreate]) cudaStreamCreate
       = Some s1.

(** ** A concrete platform *)

(** Two engines alike, each with a linear [3 x 7] float input and output.
    Every call succeeds, except the one made after [fail_at] earlier calls;
    a successful call hands back a fresh number as pointer or handle. *)
Definition demo_engine : ICudaEngine :=
  mkEngine 2 (fun idx => if idx =? 0 then "in"%string else "out"%string)
           (fun name => if String.eqb name "in" then kINPUT else kOUTPUT)
           (fun _ => kFLOAT) (fun _ => kLINEAR) (fun _ => 1) (fun _ => -1).

Definition demo_platform (fail_at : option nat) : Platform :=
  mkPlatform
    (fun history _ =>
       match fail_at with
       | Some n => if Nat.eqb (List.length history) n then None
                   else Some (100 + 1000 * Z.of_nat (List.length history))
       | None => Some (100 + 1000 * Z.of_nat (List.length history))
       end)
    (fun _ => demo_engine)
    (fun _ _ => mkDims 2 [3; 7; 0; 0; 0; 0; 0; 0]).

(** An engine with three inputs and one output, all linear [3 x 7] floats,
    and the platform that answers like [demo_platform] for it. *)
Definition wide_engine : ICudaEngine :=
  mkEngine 4
           (fun idx => if idx =? 0 then "in0"%string
                       else if idx =? 1 then "in1"%string
                       else if idx =? 2 then "in2"%string else "out"%string)
           (fun name => if String.eqb name "out" then kOUTPUT else kINPUT)
           (fun _ => kFLOAT) (fun _ => kLINEAR) (fun _ => 1) (fun _ => -1).

Definition wide_platform (fail_at : option nat) : Platform :=
  mkPlatform (respond (demo_platform fail_at))
             (fun _ => wide_engine)
             (fun _ _ => mkDims 2 [3; 7; 0; 0; 0; 0; 0; 0]).

(** Locals of [main] as they could stand at the loop: unit A with a 16-byte
    input and a 20-byte output, unit B with an 8-byte input. *)
Definition demo_locals : Locals :=
  mkLocals (IOBuffers.mk [HostMemory.mk 0 16] [HostMemory.mk 32 20])
           (IOBuffers.mk [HostMemory.mk 64 8] [])
           (Stream.mk 1) (Stream.mk 2) (GraphExec.mk 3) (GraphExec.mk 4).

(** * Properties *)

(** ** Machine arithmetic *)

Lemma wrap_int_range (z : Z) : INT_MIN <= wrap_int z <= INT_MAX.
Proof.
  unfold wrap_int, INT_MIN, INT_MAX.
  pose proof (Z.mod_pos_bound (z + 2 ^ 31) (2 ^ 32) ltac:(lia)). lia.
Qed.

Lemma wrap_int_small (z : Z) : INT_MIN <= z <= INT_MAX -> wrap_int z = z.
Proof.
  unfold wrap_int, INT_MIN, INT_MAX. intros H.
  rewrite Z.mod_small by lia. lia.
Qed.

Lemma wrap_int_shift (a q : Z) : wrap_int (a + q * 2 ^ 32) = wrap_int a.
Proof.
  unfold wrap_int.
  replace (a + q * 2 ^ 32 + 2 ^ 31) with (a + 2 ^ 31 + q * 2 ^ 32) by ring.
  now rewrite Z.mod_add by lia.
Qed.

Lemma wrap_int_decompose (a : Z) : exists q, wrap_int a = a + q * 2 ^ 32.
Proof.
  exists (- ((a + 2 ^ 31) / 2 ^ 32)). unfold wrap_int.
  rewrite Z.mod_eq by lia. ring.
Qed.

Lemma wrap_int_mul_l (a b : Z) : wrap_int (wrap_int a * b) = wrap_int (a * b).
Proof.
  destruct (wrap_int_decompose a) as [q ->].
  replace ((a + q * 2 ^ 32) * b) with (a * b + (q * b) * 2 ^ 32) by ring.
  apply wrap_int_shift.
Qed.

Lemma wrap_int_above (z : Z) : INT_MAX < z -> wrap_int z <> z.
Proof. intros H E. pose proof (wrap_int_range z). lia. Qed.

(** Once the 32-bit value is converted to [size_t], it is either at most
    [INT_MAX] or at least [2^64 - 2^31]. *)
Lemma to_size_t_wrap_int_gap (z : Z) :
  0 <= to_size_t (wrap_int z) <= INT_MAX \/
  2 ^ 64 - 2 ^ 31 <= to_size_t (wrap_int z) < 2 ^ 64.
Proof.
  pose proof (wrap_int_range z) as H. unfold INT_MIN, INT_MAX in *.
  unfold to_size_t. destruct (Z_lt_le_dec (wrap_int z) 0) as [Hn | Hp].
  - right. rewrite <- (Z.mod_add _ 1) by lia. rewrite Z.mod_small by lia. lia.
  - left. rewrite Z.mod_small by lia. lia.
Qed.

(** ** The closed form of the size computation *)

Lemma d_get_nth (shape : Dims) (k : nat) (x : Z) :
  nth_error (d shape) k = Some x -> d_get shape (Z.of_nat k) = Ok x.
Proof.
  intros H. unfold d_get.
  assert (k < List.length (d shape))%nat by (apply nth_error_Some; congruence).
  replace (0 <=? Z.of_nat k) with true by (symmetry; apply Z.leb_le; lia).
  replace (Z.of_nat k <? Z.of_nat (List.length (d shape))) with true
    by (symmetry; apply Z.ltb_lt; lia).
  simpl. now rewrite Nat2Z.id, H.
Qed.

Lemma skipn_nth_cons (l : list Z) (k : nat) (x : Z) :
  nth_error l k = Some x -> skipn k l = x :: skipn (S k) l.
Proof.
  revert k. induction l as [| h t IH]; intros [| k] H; simpl in *; try discriminate.
  - now inversion H.
  - now apply IH.
Qed.

Lemma multiply_extents_closed (shape : Dims) (todo : nat) :
  forall (k : nat) (s : Z),
    (k + todo <= List.length (d shape))%nat ->
    multiply_extents shape (Z.of_nat k) todo (wrap_int s)
    = Ok (wrap_int (s * product (firstn todo (skipn k (d shape))))).
Proof.
  induction todo as [| todo IH]; intros k s Hlen; simpl.
  - now rewrite Z.mul_1_r.
  - destruct (nth_error (d shape) k) as [x |] eqn:Hx.
    2: { apply nth_error_None in Hx. lia. }
    rewrite (d_get_nth _ _ _ Hx). simpl.
    rewrite wrap_int_mul_l.
    replace (Z.of_nat k + 1) with (Z.of_nat (S k)) by lia.
    rewrite IH by lia.
    rewrite (skipn_nth_cons _ _ _ Hx). simpl.
    now rewrite Z.mul_assoc.
Qed.

Lemma accumulate_size_closed (shape : Dims) (dtype : DataType) (width : Z) :
  fits shape ->
  sizeof_dtype dtype = Ok width ->
  accumulate_size shape dtype
  = Ok (to_size_t (wrap_int (product (extents shape) * width))).
Proof.
  intros Hfit Hw. unfold accumulate_size.
  change 1 with (wrap_int 1) at 1. change 0 with (Z.of_nat 0).
  rewrite multiply_extents_closed by exact Hfit.
  cbn [obind]. rewrite Hw. cbn [obind].
  rewrite wrap_int_mul_l, Z.mul_1_l. reflexivity.
Qed.

Lemma accumulate_size_unlisted (shape : Dims) (dtype : DataType) (e : exception) :
  fits shape ->
  sizeof_dtype dtype = Throw e ->
  accumulate_size shape dtype = Throw e.
Proof.
  intros Hfit Hw. unfold accumulate_size.
  change 1 with (wrap_int 1) at 1. change 0 with (Z.of_nat 0).
  rewrite multiply_extents_closed by exact Hfit.
  cbn [obind]. now rewrite Hw.
Qed.

Lemma sizeof_tensor_linear (context : IExecutionContext) (name : string) :
  getTensorFormat (getEngine context) name = kLINEAR ->
  sizeof_tensor context name
  = accumulate_size (getTensorShape context name)
                    (getTensorDataType (getEngine context) name).
Proof.
  intros Hf. unfold sizeof_tensor, padded_shape. now rewrite Hf.
Qed.

(** Within the range of [int] the linear-layout size is the product formula. *)
Lemma sizeof_tensor_linear_in_range (context : IExecutionContext) (name : string)
    (width : Z) :
  let shape := getTensorShape context name in
  getTensorFormat (getEngine context) name = kLINEAR ->
  fits shape ->
  sizeof_dtype (getTensorDataType (getEngine context) name) = Ok width ->
  0 <= product (extents shape) * width <= INT_MAX ->
  sizeof_tensor context name = Ok (product (extents shape) * width).
Proof.
  intros shape Hf Hfit Hw Hr. subst shape.
  rewrite sizeof_tensor_linear by exact Hf.
  rewrite (accumulate_size_closed _ _ _ Hfit Hw).
  rewrite wrap_int_small by (unfold INT_MIN, INT_MAX in *; lia).
  unfold to_size_t. rewrite Z.mod_small; [reflexivity |].
  unfold INT_MAX in Hr. lia.
Qed.

(** ** Concrete tensors *)

(** C1, at a tensor the code can receive: half precision in [kCHW2], extents
    [1, 2, 4, 4], packed dimension 1 (extent 2, a multiple of the group size
    2).  The linear-layout formula gives [1*2*4*4*2 = 64] bytes; the code pads
    dimension 2 (the group size taken as index) from 4 to 6 and returns 96. *)
Example sizeof_tensor_chw2_exact_multiple :
  let shape := mkDims 4 [1; 2; 4; 4; 0; 0; 0; 0] in
  let context := one_tensor kHALF kCHW2 2 1 shape in
  Z.rem 2 (getTensorComponentsPerElement (getEngine context) "x") = 0
  /\ product (extents shape) * 2 = 64
  /\ sizeof_tensor context "x" = Ok 96.
Proof. repeat split. Qed.

(** C2, at the example of the specification: extents [3, 7], packed
    dimension 1, group size 4, 4-byte elements.  Rounding 7 up to 8 gives
    [3*8*4 = 96] bytes; the code pads slot 4 of the extents array, which is
    no extent of this tensor, and returns [3*7*4 = 84]. *)
Example sizeof_tensor_spec_example :
  let shape := mkDims 2 [3; 7; 0; 0; 0; 0; 0; 0] in
  let context := one_tensor kFLOAT kCHW4 4 1 shape in
  sizeof_tensor context "x" = Ok 84
  /\ padded_shape context "x" = Ok (mkDims 2 [3; 7; 0; 0; 4; 0; 0; 0]).
Proof. repeat split. Qed.

(** C3, at a linear tensor of [512 x 1024 x 1024] 32-bit floats: the product
    formula gives [2^31] bytes; the [int] accumulator wraps to [-2^31] and the
    function returns [2^64 - 2^31]. *)
Example sizeof_tensor_linear_two_gib :
  let shape := mkDims 3 [512; 1024; 1024; 0; 0; 0; 0; 0] in
  let context := one_tensor kFLOAT kLINEAR 1 (-1) shape in
  product (extents shape) * 4 = 2147483648
  /\ sizeof_tensor context "x" = Ok 18446744071562067968.
Proof. repeat split. Qed.

(** ** Element widths *)

(** C4.  [sizeof_dtype] returns the tabulated width of every type in the
    table and throws [std::invalid_argument] for every other tag: it never
    yields zero or any other size for it, and neither does [sizeof_tensor]
    for a tensor of such a type. *)
Theorem sizeof_dtype_table_or_throw (dtype : DataType) :
  match tabulated_width dtype with
  | Some width => sizeof_dtype dtype = Ok width /\ 0 < width
  | None =>
      sizeof_dtype dtype = Throw (invalid_argument "dtype must be variant of DataType")
      /\ (forall size : Z, sizeof_dtype dtype <> Ok size)
      /\ (forall (context : IExecutionContext) (name : string) (size : Z),
             getTensorDataType (getEngine context) name = dtype ->
             sizeof_tensor context name <> Ok size)
  end.
Proof.
  destruct dtype; simpl; try (split; [reflexivity | lia]).
  split; [reflexivity |]. split; [discriminate |].
  intros context name size Hd. unfold sizeof_tensor. rewrite Hd.
  destruct (padded_shape context name) as [shape | | |]; simpl; try discriminate.
  unfold accumulate_size.
  destruct (multiply_extents shape 0 (Z.to_nat (nbDims shape)) 1); simpl; discriminate.
Qed.

(** ** The 32-bit accumulator *)

(** C9.  The size is accumulated in an [int] and converted to [size_t] at
    the [return]: with [footprint] the product of the extents the loop
    multiplies and of the element width, a footprint above [INT_MAX] makes
    the function return the wrapped 32-bit value, sign-converted.  That
    32-bit value is never the footprint, and the returned size is not the
    footprint either, for every footprint below [2^64 - 2^31]: that is every
    tensor a 64-bit address space can hold. *)
Theorem sizeof_tensor_wraps_at_32_bits (context : IExecutionContext) (name : string)
    (shape : Dims) (width : Z) :
  padded_shape context name = Ok shape ->
  fits shape ->
  sizeof_dtype (getTensorDataType (getEngine context) name) = Ok width ->
  let footprint := product (extents shape) * width in
  INT_MAX < footprint ->
  sizeof_tensor context name = Ok (to_size_t (wrap_int footprint))
  /\ wrap_int footprint <> footprint
  /\ (footprint < 2 ^ 64 - 2 ^ 31 -> sizeof_tensor context name <> Ok footprint).
Proof.
  intros Hp Hfit Hw footprint Hbig.
  assert (Hs : sizeof_tensor context name = Ok (to_size_t (wrap_int footprint))).
  { unfold sizeof_tensor. rewrite Hp. cbn [obind].
    now rewrite (accumulate_size_closed _ _ _ Hfit Hw). }
  split; [exact Hs |]. split; [now apply wrap_int_above |].
  intros Hlt. rewrite Hs. intros E. inversion E as [E'].
  destruct (to_size_t_wrap_int_gap footprint) as [H | H]; lia.
Qed.

Lemma sizeof_tensor_wraps_at_32_bits_witness :
  let shape := mkDims 3 [512; 1024; 1024; 0; 0; 0; 0; 0] in
  let context := one_tensor kFLOAT kLINEAR 1 (-1) shape in
  sizeof_tensor context "x" = Ok (to_size_t (wrap_int 2147483648))
  /\ wrap_int 2147483648 <> 2147483648
  /\ sizeof_tensor context "x" <> Ok 2147483648.
Proof.
  destruct (sizeof_tensor_wraps_at_32_bits
              (one_tensor kFLOAT kLINEAR 1 (-1) (mkDims 3 [512; 1024; 1024; 0; 0; 0; 0; 0]))
              "x" (mkDims 3 [512; 1024; 1024; 0; 0; 0; 0; 0]) 4)
    as (Hsize & Hint & Hdiff).
  - reflexivity.
  - unfold fits. simpl. lia.
  - reflexivity.
  - reflexivity.
  - split; [exact Hsize |]. split; [exact Hint |]. apply Hdiff. reflexivity.
Defined.

(** ** Which slot the padding touches *)

Lemma TensorFormat_eqb_neq (f : TensorFormat) :
  f <> kLINEAR -> negb (TensorFormat_eqb f kLINEAR) = true.
Proof. destruct f; intros H; try reflexivity. now elim H. Qed.

Lemma firstn_list_set (l : list Z) :
  forall (n k : nat) (x : Z), (n <= k)%nat -> firstn n (list_set l k x) = firstn n l.
Proof.
  induction l as [| h t IH]; intros n k x Hle; [reflexivity |].
  destruct k as [| k]; destruct n as [| n]; simpl; try reflexivity; try lia.
  f_equal. apply IH. lia.
Qed.

Lemma length_list_set (l : list Z) :
  forall (k : nat) (x : Z), List.length (list_set l k x) = List.length l.
Proof.
  induction l as [| h t IH]; intros [| k] x; simpl; try reflexivity.
  now rewrite IH.
Qed.

(** A write to a slot that is no extent leaves the accumulated size alone. *)
Lemma accumulate_size_unused_slot (shape : Dims) (dtype : DataType) (k : nat) (x : Z) :
  (Z.to_nat (nbDims shape) <= k < List.length (d shape))%nat ->
  accumulate_size (mkDims (nbDims shape) (list_set (d shape) k x)) dtype
  = accumulate_size shape dtype.
Proof.
  intros [Hk Hlen]. unfold accumulate_size.
  change 1 with (wrap_int 1). change 0 with (Z.of_nat 0).
  rewrite !multiply_extents_closed;
    cbn [nbDims d]; rewrite ?length_list_set; try lia.
  cbn [skipn]. now rewrite firstn_list_set by exact Hk.
Qed.

(** C10 as stated does not hold for a [kHWC8] tensor: the group size 8 is at
    least the number of dimensions 4, but slot 8 lies outside the 8-slot
    extents array, so the access has no defined result, while the unpadded
    size is [1*8*4*4*2 = 256]. *)
Example sizeof_tensor_hwc8_outside_array :
  let shape := mkDims 4 [1; 8; 4; 4; 0; 0; 0; 0] in
  let context := one_tensor kHALF kHWC8 8 1 shape in
  getTensorFormat (getEngine context) "x" <> kLINEAR
  /\ nbDims shape <= getTensorComponentsPerElement (getEngine context) "x"
  /\ Z.of_nat (List.length (d shape)) = MAX_DIMS
  /\ accumulate_size shape kHALF = Ok 256
  /\ sizeof_tensor context "x" = Undefined.
Proof. repeat split. discriminate. discriminate. Qed.

(** C10, amended.  For a tensor that is not in linear layout the slot that is
    padded is the one indexed by the components-per-element value, whatever
    the vectorized-dimension query would answer.  When that value is at least
    the number of dimensions and inside the extents array, the write lands in
    an unused slot and the size is the one computed without padding; when it
    is at or past the end of the array the access is outside the array and
    the computation has no defined result. *)
Theorem padding_lands_at_group_size (context : IExecutionContext) (name : string) :
  let engine := getEngine context in
  let shape := getTensorShape context name in
  let dtype := getTensorDataType engine name in
  let components_per_element := getTensorComponentsPerElement engine name in
  getTensorFormat engine name <> kLINEAR ->
  padded_shape context name
  = pad_dimension shape components_per_element components_per_element
  /\ (forall answer : string -> Z,
         sizeof_tensor (with_vectorized_dim answer context) name
         = sizeof_tensor context name)
  /\ (0 < components_per_element ->
      nbDims shape <= components_per_element < Z.of_nat (List.length (d shape)) ->
      sizeof_tensor context name = accumulate_size shape dtype)
  /\ (Z.of_nat (List.length (d shape)) <= components_per_element ->
      sizeof_tensor context name = Undefined).
Proof.
  intros engine shape dtype cpe Hf.
  assert (Hp : padded_shape context name = pad_dimension shape cpe cpe).
  { unfold padded_shape. fold engine.
    now rewrite (TensorFormat_eqb_neq _ Hf). }
  split; [exact Hp |]. split; [reflexivity |]. split.
  - intros Hpos [Hlo Hhi]. unfold sizeof_tensor. rewrite Hp.
    unfold pad_dimension, d_get, d_set.
    replace (0 <=? cpe) with true by (symmetry; apply Z.leb_le; lia).
    replace (cpe <? Z.of_nat (List.length (d shape))) with true
      by (symmetry; apply Z.ltb_lt; lia).
    cbn [andb].
    destruct (nth_error (d shape) (Z.to_nat cpe)) as [x |] eqn:Hx.
    2: { apply nth_error_None in Hx. lia. }
    cbn [obind]. unfold int_rem.
    replace (cpe =? 0) with false by (symmetry; apply Z.eqb_neq; lia).
    replace (cpe =? -1) with false by (symmetry; apply Z.eqb_neq; lia).
    rewrite andb_false_r. cbn [obind].
    apply accumulate_size_unused_slot. lia.
  - intros Hout. unfold sizeof_tensor. rewrite Hp.
    unfold pad_dimension, d_get.
    replace (cpe <? Z.of_nat (List.length (d shape))) with false
      by (symmetry; apply Z.ltb_ge; lia).
    now rewrite andb_false_r.
Qed.

Lemma padding_lands_at_group_size_witness :
  let shape := mkDims 2 [3; 7; 0; 0; 0; 0; 0; 0] in
  let context := one_tensor kFLOAT kCHW4 4 1 shape in
  padded_shape context "x" = pad_dimension shape 4 4
  /\ sizeof_tensor (with_vectorized_dim (fun _ => 0) context) "x"
     = sizeof_tensor context "x"
  /\ sizeof_tensor context "x" = accumulate_size shape kFLOAT.
Proof.
  destruct (padding_lands_at_group_size
              (one_tensor kFLOAT kCHW4 4 1 (mkDims 2 [3; 7; 0; 0; 0; 0; 0; 0])) "x")
    as (Hslot & Hquery & Hunused & _).
  - simpl. discriminate.
  - split; [exact Hslot |]. split; [apply Hquery |].
    apply Hunused; simpl; lia.
Defined.

(** ** [HostMemory::randomize] *)

Lemma store_bytes_frame (n : nat) :
  forall (mem : memory) (addr v j a : Z),
    ~ (addr + j <= a < addr + j + Z.of_nat n) ->
    store_bytes mem addr v j n a = mem a.
Proof.
  induction n as [| n IH]; intros mem addr v j a Hout; [reflexivity |].
  cbn [store_bytes]. rewrite IH by lia.
  unfold store_byte. destruct (Z.eqb_spec a (addr + j)); [lia | reflexivity].
Qed.

Lemma store_bytes_content (n : nat) :
  forall (mem : memory) (addr v j i : Z),
    j <= i < j + Z.of_nat n ->
    store_bytes mem addr v j n (addr + i) = byte_of v i.
Proof.
  induction n as [| n IH]; intros mem addr v j i Hin; [lia |].
  cbn [store_bytes]. destruct (Z.eq_dec i j) as [-> | Hne].
  - rewrite store_bytes_frame by lia.
    unfold store_byte. now rewrite Z.eqb_refl.
  - apply IH. lia.
Qed.

Section RandomizeProperties.

Variable R : RandomEngine.
Let w : Z := sizeof_rand_t R.
Hypothesis w_pos : 0 < w.

Lemma store_word_frame (mem : memory) (addr v a : Z) :
  ~ (addr <= a < addr + w) -> store_word R mem addr v a = mem a.
Proof.
  intros H. unfold store_word. apply store_bytes_frame.
  fold w. rewrite Z2Nat.id by lia. lia.
Qed.

Lemma store_word_content (mem : memory) (addr v j : Z) :
  0 <= j < w -> store_word R mem addr v (addr + j) = byte_of v j.
Proof.
  intros H. unfold store_word. apply store_bytes_content.
  fold w. rewrite Z2Nat.id by lia. lia.
Qed.

Lemma generate_engine (count : nat) :
  forall (mem : memory) (first : Z) (re : engine_state R),
    snd (generate R mem first count re) = advance R count re.
Proof.
  induction count as [| count IH]; intros mem first re; [reflexivity |].
  cbn [generate advance]. destruct (generate_word R re) as [v re'].
  apply IH.
Qed.

Lemma generate_frame (count : nat) :
  forall (mem : memory) (first : Z) (re : engine_state R) (a : Z),
    ~ (first <= a < first + Z.of_nat count * w) ->
    fst (generate R mem first count re) a = mem a.
Proof.
  induction count as [| count IH]; intros mem first re a Hout; [reflexivity |].
  cbn [generate]. destruct (generate_word R re) as [v re'].
  fold w. rewrite IH by lia. apply store_word_frame. lia.
Qed.

Lemma generate_content (count : nat) :
  forall (mem : memory) (first : Z) (re : engine_state R) (k : nat) (j : Z),
    (k < count)%nat -> 0 <= j < w ->
    fst (generate R mem first count re) (first + Z.of_nat k * w + j)
    = byte_of (drawn R k re) j.
Proof.
  induction count as [| count IH]; intros mem first re k j Hk Hj; [lia |].
  cbn [generate]. unfold drawn.
  destruct k as [| k].
  - cbn [advance]. destruct (generate_word R re) as [v re'] eqn:Hg.
    fold w. rewrite generate_frame by lia.
    replace (first + Z.of_nat 0 * w + j) with (first + j) by lia.
    now apply store_word_content.
  - cbn [advance]. destruct (generate_word R re) as [v re'] eqn:Hg.
    fold w. cbn [snd].
    replace (first + Z.of_nat (S k) * w + j) with (first + w + Z.of_nat k * w + j) by lia.
    apply IH; [lia | exact Hj].
Qed.

End RandomizeProperties.

(** C5.  [HostMemory::randomize] on a buffer of [size] bytes, the engine's
    word taking [w] bytes: the first [size / w] words of the region hold the
    values the engine drew, in order; every byte outside those words keeps
    its value, so the trailing [size mod w] bytes of the region and every
    byte outside the region are untouched; the engine has advanced by
    [size / w] draws, and the call cannot fail. *)
Theorem randomize_writes_full_words_only (R : RandomEngine) (m : HostMemory)
    (re : engine_state R) (history : list Event) (mem : memory) :
  let w := sizeof_rand_t R in
  let ptr := HostMemory.ptr_ m in
  let size := HostMemory.size_ m in
  let words := size / w in
  let run := HostMemory_randomize R m re history mem in
  let mem' := heap run in
  0 < w ->
  0 <= size ->
  result run = Ok (advance R (Z.to_nat words) re)
  /\ (forall k j : Z, 0 <= k < words -> 0 <= j < w ->
        mem' (ptr + k * w + j) = byte_of (drawn R (Z.to_nat k) re) j)
  /\ (forall a : Z, ~ (ptr <= a < ptr + words * w) -> mem' a = mem a)
  /\ (forall a : Z, ptr + words * w <= a < ptr + size -> mem' a = mem a)
  /\ (forall a : Z, a < ptr \/ ptr + size <= a -> mem' a = mem a)
  /\ 0 <= size - words * w < w.
Proof.
  intros w ptr size words run mem' Hw Hsize.
  assert (Hwords : 0 <= words) by (apply Z.div_pos; lia).
  assert (Hrest : 0 <= size - words * w < w).
  { pose proof (Z.mod_pos_bound size w Hw) as Hb.
    unfold words. rewrite Z.mod_eq in Hb by lia. lia. }
  assert (Hres : result run = Ok (advance R (Z.to_nat words) re)).
  { unfold run, HostMemory_randomize.
    pose proof (generate_engine R (Z.to_nat words) mem ptr re) as He.
    unfold randomize_region. fold ptr size w words.
    destruct (generate R mem ptr (Z.to_nat words) re) as [h re']. simpl in *.
    now rewrite He. }
  assert (Hmem : mem' = fst (generate R mem ptr (Z.to_nat words) re)).
  { unfold mem', run, HostMemory_randomize, randomize_region. fold ptr size w words.
    now destruct (generate R mem ptr (Z.to_nat words) re). }
  assert (Hframe : forall a, ~ (ptr <= a < ptr + words * w) -> mem' a = mem a).
  { intros a Ha. rewrite Hmem. apply generate_frame; [exact Hw |].
    rewrite Z2Nat.id by lia. exact Ha. }
  repeat split; try lia; try exact Hres.
  - intros k j Hk Hj. rewrite Hmem.
    rewrite <- (Z2Nat.id k) at 1 by lia.
    apply generate_content; [exact Hw | lia | exact Hj].
  - exact Hframe.
  - intros a Ha. apply Hframe. lia.
  - intros a Ha. apply Hframe. lia.
Qed.

Lemma randomize_writes_full_words_only_witness :
  let m := HostMemory.mk 4096 20 in
  let run := HostMemory_randomize minstd_rand0 m 1 [] (fun _ => 255) in
  result run = Ok (advance minstd_rand0 2 1)
  /\ heap run 4096 = byte_of 16807 0
  /\ heap run (4096 + 1 * 8 + 1) = byte_of 282475249 1
  /\ heap run 4112 = 255
  /\ heap run 4115 = 255
  /\ heap run 4095 = 255
  /\ heap run 4116 = 255.
Proof.
  destruct (randomize_writes_full_words_only minstd_rand0 (HostMemory.mk 4096 20) 1
              [] (fun _ => 255))
    as (Hres & Hwords & _ & Htail & Hout & _).
  - simpl. lia.
  - simpl. lia.
  - split; [exact Hres |].
    split; [apply (Hwords 0 0); simpl; change (20 / 8) with 2; lia |].
    split; [apply (Hwords 1 1); simpl; change (20 / 8) with 2; lia |].
    split; [apply Htail; simpl; change (20 / 8) with 2; lia |].
    split; [apply Htail; simpl; change (20 / 8) with 2; lia |].
    split; apply Hout; simpl; lia.
Defined.

(** ** Runs and their traces *)

Lemma bind_eq {A B : Type} (c : M A) (k : A -> M B) (history : list Event) (mem : memory) :
  bind c k history mem
  = match result (c history mem) with
    | Ok a =>
        prepend (emitted (c history mem))
                (k a (history ++ emitted (c history mem)) (heap (c history mem)))
    | Throw e => mkRun (Throw e) (emitted (c history mem)) (heap (c history mem))
    | Abort => mkRun Abort (emitted (c history mem)) (heap (c history mem))
    | Undefined => mkRun Undefined (emitted (c history mem)) (heap (c history mem))
    end.
Proof. reflexivity. Qed.

Lemma emitted_bind {A B : Type} (c : M A) (k : A -> M B) (history : list Event)
    (mem : memory) :
  emitted (bind c k history mem)
  = emitted (c history mem)
    ++ match result (c history mem) with
       | Ok a => emitted (k a (history ++ emitted (c history mem)) (heap (c history mem)))
       | _ => []
       end.
Proof.
  rewrite bind_eq.
  destruct (result (c history mem)); cbn [prepend emitted]; now rewrite ?app_nil_r.
Qed.

Lemma result_bind {A B : Type} (c : M A) (k : A -> M B) (history : list Event)
    (mem : memory) :
  result (bind c k history mem)
  = match result (c history mem) with
    | Ok a => result (k a (history ++ emitted (c history mem)) (heap (c history mem)))
    | Throw e => Throw e
    | Abort => Abort
    | Undefined => Undefined
    end.
Proof. rewrite bind_eq. now destruct (result (c history mem)). Qed.

Lemma only_ret {A : Type} (Q : Event -> Prop) (a : A) : only Q (ret a).
Proof. intros h m. constructor. Qed.

Lemma only_throw {A : Type} (Q : Event -> Prop) (e : exception) : only Q (@throw A e).
Proof. intros h m. constructor. Qed.

Lemma only_abort {A : Type} (Q : Event -> Prop) : only Q (@abort A).
Proof. intros h m. constructor. Qed.

Lemma only_lift {A : Type} (Q : Event -> Prop) (o : outcome A) : only Q (lift o).
Proof. intros h m. constructor. Qed.

Lemma only_bind {A B : Type} (Q : Event -> Prop) (c : M A) (k : A -> M B) :
  only Q c -> (forall a, only Q (k a)) -> only Q (bind c k).
Proof.
  intros Hc Hk h m. rewrite bind_eq. specialize (Hc h m).
  destruct (result (c h m)); try exact Hc.
  cbn [prepend emitted]. apply Forall_app. split; [exact Hc | apply Hk].
Qed.

Lemma only_call (P : Platform) (Q : Event -> Prop) (e : Event) :
  Q e -> only Q (call P e).
Proof. intros He h m. cbn. now constructor. Qed.

Lemma only_check (Q : Event -> Prop) (r : option Z) (e : exception) :
  only Q (check r e).
Proof. destruct r; [apply only_ret | apply only_throw]. Qed.

Ltac only_steps :=
  repeat first
    [ apply only_ret | apply only_throw | apply only_abort | apply only_lift
    | apply only_check | apply only_call; exact I
    | apply only_bind; [| intro] ].

Section Traces.

Variable P : Platform.
Variable R : RandomEngine.

(** A call, its failure check and the value built from its answer. *)
Lemma checked_call_run {A : Type} (e : Event) (ex : exception) (f : Z -> A)
    (history : list Event) (mem : memory) :
  (err <- call P e ;; v <- check err ex ;; ret (f v)) history mem
  = mkRun (match respond P history e with
           | Some v => Ok (f v)
           | None => Throw ex
           end) [e] mem.
Proof.
  rewrite bind_eq. cbn [call result emitted heap].
  destruct (respond P history e); reflexivity.
Qed.

Lemma try_enqueue_run (context : IExecutionContext) (stream : Stream) history mem :
  try_enqueue P context stream history mem
  = mkRun (match respond P history (enqueueV3 (context_ptr context) (Stream.ptr_ stream)) with
           | Some _ => Ok tt
           | None => Throw (runtime_error "failed to enqueue ExecutionContext")
           end) [enqueueV3 (context_ptr context) (Stream.ptr_ stream)] mem.
Proof. apply (checked_call_run _ _ (fun _ => tt)). Qed.

Lemma Stream_synchronize_run (s : Stream) history mem :
  Stream_synchronize P s history mem
  = mkRun (match respond P history (cudaStreamSynchronize (Stream.ptr_ s)) with
           | Some _ => Ok tt
           | None => Throw (runtime_error "failed to synchronize stream")
           end) [cudaStreamSynchronize (Stream.ptr_ s)] mem.
Proof. apply (checked_call_run _ _ (fun _ => tt)). Qed.

Lemma Stream_begin_capture_run (s : Stream) history mem :
  Stream_begin_capture P s history mem
  = mkRun (match respond P history (cudaStreamBeginCapture (Stream.ptr_ s)) with
           | Some _ => Ok tt
           | None => Throw (runtime_error "failed to begin capture")
           end) [cudaStreamBeginCapture (Stream.ptr_ s)] mem.
Proof. apply (checked_call_run _ _ (fun _ => tt)). Qed.

Lemma Graph_new_run (s : Stream) history mem :
  Graph_new P s history mem
  = mkRun (match respond P history (cudaStreamEndCapture (Stream.ptr_ s)) with
           | Some g => Ok (Graph.mk g)
           | None => Throw (runtime_error "failed to end capture")
           end) [cudaStreamEndCapture (Stream.ptr_ s)] mem.
Proof. apply (checked_call_run _ _ Graph.mk). Qed.

Lemma GraphExec_new_run (g : Graph) history mem :
  GraphExec_new P g history mem
  = mkRun (match respond P history (cudaGraphInstantiate (Graph.ptr_ g)) with
           | Some x => Ok (GraphExec.mk x)
           | None => Throw (runtime_error "could not instantiate graph as executable")
           end) [cudaGraphInstantiate (Graph.ptr_ g)] mem.
Proof. apply (checked_call_run _ _ GraphExec.mk). Qed.

Lemma GraphExec_launch_run (g : GraphExec) (s : Stream) history mem :
  GraphExec_launch P g s history mem
  = mkRun (match respond P history (cudaGraphLaunch (GraphExec.ptr_ g) (Stream.ptr_ s)) with
           | Some _ => Ok tt
           | None => Throw (runtime_error "failed to launch graph instance")
           end) [cudaGraphLaunch (GraphExec.ptr_ g) (Stream.ptr_ s)] mem.
Proof. apply (checked_call_run _ _ (fun _ => tt)). Qed.

(** *** Warm-up and capture *)

Tactic Notation "step" constr(lem) "as" ident(x) :=
  rewrite bind_eq, lem; cbn [result emitted heap];
  match goal with
  | |- context [respond ?Q ?h ?e] => destruct (respond Q h e) as [x |]
  end; cbv beta iota.

Tactic Notation "answer" constr(lem) "as" ident(x) ident(Hx) :=
  rewrite bind_eq, lem; cbn [result emitted heap];
  match goal with
  | |- context [respond ?Q ?h ?e] => destruct (respond Q h e) as [x |] eqn:Hx
  end; cbv beta iota;
  repeat rewrite <- app_assoc in Hx; cbn [app] in Hx.

Ltac close_setup g0 g1 :=
  unfold setup_outcome, captured, instantiated, setup_events, warm_up_events,
    capture_events;
  cbn [prepend ret result emitted heap app firstn List.length Graph.ptr_ GraphExec.ptr_];
  split; [reflexivity |];
  exists g0, g1;
  split; [eexists; cbn [app]; reflexivity |];
  split; [split; intros Hlen; first [assumption | exfalso; lia] |];
  first [exact I | split; [reflexivity | split; assumption]].

Lemma warm_up_and_capture_order (context0 context1 : IExecutionContext)
    (stream0 stream1 : Stream) (history : list Event) (mem : memory) :
  setup_outcome P history mem (context_ptr context0) (Stream.ptr_ stream0)
                (context_ptr context1) (Stream.ptr_ stream1)
                (warm_up_and_capture P context0 context1 stream0 stream1 history mem).
Proof.
  unfold warm_up_and_capture.
  answer try_enqueue_run as ok1 H1; [| close_setup 0 0].
  answer Stream_synchronize_run as ok2 H2; [| close_setup 0 0].
  answer try_enqueue_run as ok3 H3; [| close_setup 0 0].
  answer Stream_synchronize_run as ok4 H4; [| close_setup 0 0].
  answer Stream_begin_capture_run as ok5 H5; [| close_setup 0 0].
  answer try_enqueue_run as ok6 H6; [| close_setup 0 0].
  answer Graph_new_run as g0 Hg0; [| close_setup 0 0].
  answer GraphExec_new_run as e0 He0; [| close_setup g0 0].
  answer Stream_synchronize_run as ok7 H7; [| close_setup g0 0].
  answer Stream_begin_capture_run as ok8 H8; [| close_setup g0 0].
  answer try_enqueue_run as ok9 H9; [| close_setup g0 0].
  answer Graph_new_run as g1 Hg1; [| close_setup g0 0].
  answer GraphExec_new_run as e1 He1; [| close_setup g0 g1].
  answer Stream_synchronize_run as ok10 H10; [| close_setup g0 g1].
  close_setup g0 g1.
Qed.

(** *** The loop *)

Lemma randomize_regions_app (a b : list HostMemory) :
  forall (mem : memory) (re : engine_state R),
    randomize_regions R (a ++ b) mem re
    = let (mem', re') := randomize_regions R a mem re in
      randomize_regions R b mem' re'.
Proof.
  induction a as [| x a IH]; intros mem re; [reflexivity |].
  cbn [app randomize_regions].
  destruct (randomize_region R x mem re) as [mem1 re1]. apply IH.
Qed.

Lemma for_each_randomize_run (ms : list HostMemory) :
  forall (re : engine_state R) (history : list Event) (mem : memory),
    for_each_randomize R ms re history mem
    = mkRun (Ok (snd (randomize_regions R ms mem re)))
            (map randomized_event ms)
            (fst (randomize_regions R ms mem re)).
Proof.
  induction ms as [| x ms IH]; intros re history mem; [reflexivity |].
  cbn [for_each_randomize randomize_regions map].
  rewrite bind_eq. unfold HostMemory_randomize.
  destruct (randomize_region R x mem re) as [mem1 re1].
  cbn [result emitted heap]. rewrite IH. reflexivity.
Qed.

Lemma IOBuffers_randomize_run (b : IOBuffers) (re : engine_state R)
    (history : list Event) (mem : memory) :
  IOBuffers_randomize R b re history mem
  = mkRun (Ok (snd (randomize_regions R (buffers_of b) mem re)))
          (map randomized_event (buffers_of b))
          (fst (randomize_regions R (buffers_of b) mem re)).
Proof.
  unfold IOBuffers_randomize, buffers_of.
  rewrite bind_eq, for_each_randomize_run. cbn [result emitted heap].
  rewrite for_each_randomize_run, randomize_regions_app.
  destruct (randomize_regions R (IOBuffers.inputs b) mem re) as [mem1 re1].
  cbn [fst snd prepend result emitted heap]. now rewrite map_app.
Qed.

Ltac close_iteration :=
  cbn [prepend result emitted heap app];
  split; [reflexivity |];
  eexists; split; [rewrite map_app, <- app_assoc; reflexivity |];
  split; [eexists; cbn [app]; reflexivity |];
  first [ split; reflexivity
        | split; [discriminate | first [left; reflexivity | right; reflexivity]] ].

Lemma fuzz_iteration_order (l : Locals) (i : Z) (re : engine_state R)
    (history : list Event) (mem : memory) :
  iteration_outcome R l i mem re (fuzz_iteration P R l i re history mem).
Proof.
  unfold iteration_outcome, all_buffers, launch_and_wait.
  rewrite randomize_regions_app. unfold fuzz_iteration.
  rewrite bind_eq. cbn [call result emitted heap]. cbv beta iota.
  rewrite bind_eq, IOBuffers_randomize_run. cbn [result emitted heap].
  destruct (randomize_regions R (buffers_of (buffers0 l)) mem re) as [mem1 re1].
  cbn [fst snd].
  rewrite bind_eq, IOBuffers_randomize_run. cbn [result emitted heap].
  destruct (randomize_regions R (buffers_of (buffers1 l)) mem1 re1) as [mem2 re2].
  cbn [fst snd].
  step GraphExec_launch_run as ok1; [| close_iteration].
  step GraphExec_launch_run as ok2; [| close_iteration].
  step Stream_synchronize_run as ok3; [| close_iteration].
  step Stream_synchronize_run as ok4; [| close_iteration].
  unfold ret. close_iteration.
Qed.

Lemma fuzz_loop_order (l : Locals) (fuel : nat) :
  forall (i : Z) (re : engine_state R) (history : list Event) (mem : memory),
    loop_outcome R fuel l i mem re (fuzz_loop P R fuel l i re history mem).
Proof.
  induction fuel as [| fuel IH]; intros i re history mem.
  - exists O, []. cbn. repeat split; try reflexivity; try lia.
    now exists (iteration_events l i).
  - cbn [fuzz_loop]. change (loop_condition i) with true. cbv iota.
    rewrite bind_eq.
    destruct (fuzz_iteration_order l i re history mem)
      as (Hheap & rest & Hem & [more Hmore] & Hres).
    destruct (randomize_regions R (all_buffers l) mem re) as [mem1 re1] eqn:Hfill.
    cbn [fst snd] in *.
    destruct (result (fuzz_iteration P R l i re history mem)) as [re' | ex | |];
      try contradiction.
    + destruct Hres as [-> ->].
      destruct (IH (wrap_uint64 (i + 1)) re1
                   (history ++ emitted (fuzz_iteration P R l i re history mem))
                   (heap (fuzz_iteration P R l i re history mem)))
        as (done & partial & Hle & Hem' & Hpre' & Hres').
      exists (S done), partial.
      cbn [prepend result emitted heap counters counter_after map List.concat fills].
      rewrite Hfill, Hem, Hem', Hheap in *.
      split; [lia |]. split; [unfold iteration_events; now rewrite app_assoc |].
      split; [exact Hpre' |].
      destruct (result (fuzz_loop P R fuel l (wrap_uint64 (i + 1)) re1 _ _))
        as [state | ex | |]; try contradiction.
      * destruct Hres' as (-> & -> & -> & ->). repeat split; reflexivity.
      * destruct Hres' as (Hlt & Hne & Hex & ->).
        repeat split; [lia | exact Hne | exact Hex].
    + exists O, (emitted (fuzz_iteration P R l i re history mem)).
      cbn [result emitted heap counters counter_after map List.concat fills app].
      rewrite Hfill, Hem, Hheap.
      split; [lia |]. split; [reflexivity |]. split.
      * exists more. unfold iteration_events. rewrite Hmore.
        cbn [app]. now rewrite <- app_assoc.
      * destruct Hres as [_ Hex]. repeat split; [lia | discriminate | exact Hex].
Qed.

Lemma only_for_each_randomize (ms : list HostMemory) :
  forall re : engine_state R, only loop_event (for_each_randomize R ms re).
Proof.
  intros re history mem. rewrite for_each_randomize_run. cbn [emitted].
  induction ms as [| x ms IH]; constructor; [exact I | exact IH].
Qed.

Lemma only_fuzz_iteration (l : Locals) (i : Z) (re : engine_state R) :
  only loop_event (fuzz_iteration P R l i re).
Proof.
  unfold fuzz_iteration, IOBuffers_randomize, GraphExec_launch, Stream_synchronize.
  repeat first
    [ apply only_for_each_randomize | apply only_ret | apply only_check
    | apply only_call; exact I | apply only_bind; [| intro] ].
Qed.

Lemma only_fuzz_loop (l : Locals) (fuel : nat) :
  forall (i : Z) (re : engine_state R), only loop_event (fuzz_loop P R fuel l i re).
Proof.
  induction fuel as [| fuel IH]; intros i re; cbn [fuzz_loop].
  - apply only_ret.
  - change (loop_condition i) with true. cbv iota.
    apply only_bind; [apply only_fuzz_iteration | intro; apply IH].
Qed.

End Traces.

(** ** The order inside the loop *)

(** C6.  An iteration with counter [i] emits, in this order: the counter; the
    fill of every buffer of unit A (inputs, then outputs), then of every
    buffer of unit B; the launch of A's graph, the launch of B's graph; the
    wait for A's stream, the wait for B's stream.  A run of the loop is a
    number of such iterations followed by a prefix of one (empty unless a
    launch or a wait failed), and the buffers are filled from the one engine,
    threaded through unit A's buffers, then unit B's, iteration after
    iteration. *)
Theorem fuzz_loop_fixed_order (P : Platform) (R : RandomEngine) (l : Locals)
    (fuel : nat) (i : Z) (re : engine_state R) (history : list Event) (mem : memory) :
  let run := fuzz_loop P R fuel l i re history mem in
  (forall j : Z,
      iteration_events l j
      = [cout_counter j]
        ++ map randomized_event (IOBuffers.inputs (buffers0 l) ++ IOBuffers.outputs (buffers0 l))
        ++ map randomized_event (IOBuffers.inputs (buffers1 l) ++ IOBuffers.outputs (buffers1 l))
        ++ [cudaGraphLaunch (GraphExec.ptr_ (graph_exec0 l)) (Stream.ptr_ (stream0 l));
            cudaGraphLaunch (GraphExec.ptr_ (graph_exec1 l)) (Stream.ptr_ (stream1 l));
            cudaStreamSynchronize (Stream.ptr_ (stream0 l));
            cudaStreamSynchronize (Stream.ptr_ (stream1 l))])
  /\ exists (done : nat) (partial : list Event),
       (done <= fuel)%nat
       /\ emitted run = List.concat (map (iteration_events l) (counters done i)) ++ partial
       /\ is_prefix partial (iteration_events l (counter_after done i))
       /\ match result run with
          | Ok state =>
              done = fuel /\ partial = []
              /\ state = Iterating (counter_after fuel i) (snd (fills R fuel l mem re))
              /\ heap run = fst (fills R fuel l mem re)
          | Throw ex =>
              (done < fuel)%nat /\ partial <> [] /\ failed_in_loop ex
              /\ heap run = fst (fills R (S done) l mem re)
          | Abort | Undefined => False
          end.
Proof.
  intros run. split.
  - intros j. unfold iteration_events, all_buffers, buffers_of, launch_and_wait.
    cbn [app]. now rewrite map_app, <- app_assoc.
  - exact (fuzz_loop_order P R l fuel i re history mem).
Qed.

(** ** The loop goes on *)

Lemma fuzz_loop_continues (P : Platform) (R : RandomEngine) (l : Locals) (fuel : nat) :
  forall (i : Z) (re : engine_state R) (history : list Event) (mem : memory)
         (state : LoopState R),
    result (fuzz_loop P R fuel l i re history mem) = Ok state ->
    exists more : list Event,
      emitted (fuzz_loop P R (S fuel) l i re history mem)
      = emitted (fuzz_loop P R fuel l i re history mem)
        ++ cout_counter (counter_after fuel i) :: more.
Proof.
  induction fuel as [| fuel IH]; intros i re history mem state Hok.
  - cbn [fuzz_loop]. change (loop_condition i) with true. cbv iota.
    rewrite emitted_bind.
    destruct (fuzz_iteration_order P R l i re history mem) as (_ & rest & -> & _).
    cbn [ret emitted app counter_after]. eexists. reflexivity.
  - change (fuzz_loop P R (S (S fuel)) l i re history mem)
      with (bind (fuzz_iteration P R l i re)
                 (fun re' => fuzz_loop P R (S fuel) l (wrap_uint64 (i + 1)) re')
                 history mem).
    change (fuzz_loop P R (S fuel) l i re history mem)
      with (bind (fuzz_iteration P R l i re)
                 (fun re' => fuzz_loop P R fuel l (wrap_uint64 (i + 1)) re')
                 history mem) in Hok |- *.
    rewrite result_bind in Hok. rewrite !emitted_bind.
    destruct (result (fuzz_iteration P R l i re history mem)) as [re' | | |];
      try discriminate.
    destruct (IH _ _ _ _ _ Hok) as [more Hmore].
    exists more. cbn [counter_after]. rewrite Hmore. now rewrite app_assoc.
Qed.

(** * Further properties of the code *)

(** ** [sizeof_tensor]: the sizes it can and cannot return *)

(** X1.  Whatever the tensor, a size [sizeof_tensor] returns is a 32-bit
    [int] converted to [size_t]: at most [INT_MAX], or at least
    [2^64 - 2^31].  No size from 2 GiB up to [2^64 - 2^31 - 1] is ever
    returned. *)
Theorem sizeof_tensor_range (context : IExecutionContext) (name : string) (size : Z) :
  sizeof_tensor context name = Ok size ->
  0 <= size <= INT_MAX \/ 2 ^ 64 - 2 ^ 31 <= size < 2 ^ 64.
Proof.
  unfold sizeof_tensor, accumulate_size. intros H.
  destruct (padded_shape context name) as [shape | | |]; try discriminate.
  cbn [obind] in H.
  destruct (multiply_extents shape 0 (Z.to_nat (nbDims shape)) 1) as [s | | |];
    try discriminate.
  cbn [obind] in H.
  destruct (sizeof_dtype (getTensorDataType (getEngine context) name)) as [w | | |];
    try discriminate.
  cbn [obind] in H. inversion H. apply to_size_t_wrap_int_gap.
Qed.

Lemma sizeof_tensor_range_witness :
  0 <= 84 <= INT_MAX \/ 2 ^ 64 - 2 ^ 31 <= 84 < 2 ^ 64.
Proof.
  apply (sizeof_tensor_range
           (one_tensor kFLOAT kCHW4 4 1 (mkDims 2 [3; 7; 0; 0; 0; 0; 0; 0])) "x" 84).
  reflexivity.
Defined.

(** X2.  A linear tensor without dimensions ([nbDims] zero, or negative as
    for a shape that could not be read) has the size of one element: the
    loop does not run, and an unlisted type still throws. *)
Theorem sizeof_tensor_no_dimensions (context : IExecutionContext) (name : string) :
  getTensorFormat (getEngine context) name = kLINEAR ->
  nbDims (getTensorShape context name) <= 0 ->
  sizeof_tensor context name
  = sizeof_dtype (getTensorDataType (getEngine context) name).
Proof.
  intros Hf Hn. rewrite sizeof_tensor_linear by exact Hf.
  unfold accumulate_size.
  replace (Z.to_nat (nbDims (getTensorShape context name))) with O by lia.
  cbn [multiply_extents obind].
  destruct (getTensorDataType (getEngine context) name); reflexivity.
Qed.

Lemma sizeof_tensor_no_dimensions_witness :
  sizeof_tensor (one_tensor kHALF kLINEAR 1 (-1) (mkDims 0 [0; 0; 0; 0; 0; 0; 0; 0])) "x"
  = Ok 2.
Proof.
  apply (sizeof_tensor_no_dimensions
           (one_tensor kHALF kLINEAR 1 (-1) (mkDims 0 [0; 0; 0; 0; 0; 0; 0; 0])) "x").
  - reflexivity.
  - simpl. lia.
Defined.

Lemma product_with_zero (l : list Z) : In 0 l -> product l = 0.
Proof.
  induction l as [| h t IH]; intros Hin; [contradiction |].
  cbn [product fold_right]. destruct Hin as [-> | Hin]; [reflexivity |].
  fold (product t). rewrite (IH Hin). apply Z.mul_0_r.
Qed.

(** X3.  A linear tensor one of whose extents is 0 has size 0, whatever the
    other extents are (also when their product alone would overflow). *)
Theorem sizeof_tensor_empty_extent (context : IExecutionContext) (name : string)
    (width : Z) :
  let shape := getTensorShape context name in
  getTensorFormat (getEngine context) name = kLINEAR ->
  fits shape ->
  sizeof_dtype (getTensorDataType (getEngine context) name) = Ok width ->
  In 0 (extents shape) ->
  sizeof_tensor context name = Ok 0.
Proof.
  intros shape Hf Hfit Hw Hz. subst shape.
  rewrite sizeof_tensor_linear by exact Hf.
  rewrite (accumulate_size_closed _ _ _ Hfit Hw).
  now rewrite (product_with_zero _ Hz).
Qed.

Lemma sizeof_tensor_empty_extent_witness :
  sizeof_tensor
    (one_tensor kFLOAT kLINEAR 1 (-1) (mkDims 3 [65536; 65536; 0; 0; 0; 0; 0; 0])) "x"
  = Ok 0.
Proof.
  apply (sizeof_tensor_empty_extent
           (one_tensor kFLOAT kLINEAR 1 (-1) (mkDims 3 [65536; 65536; 0; 0; 0; 0; 0; 0]))
           "x" 4).
  - reflexivity.
  - unfold fits. simpl. lia.
  - reflexivity.
  - simpl. auto.
Defined.

(** X4.  A linear tensor whose extents multiply to a negative number within
    the range of [int] (an extent left at -1, as for a dynamic dimension that
    was never set) gets the size [2^64 + product * width]: the [return]
    converts the negative [int] to [size_t]. *)
Theorem sizeof_tensor_negative_product (context : IExecutionContext) (name : string)
    (width : Z) :
  let shape := getTensorShape context name in
  getTensorFormat (getEngine context) name = kLINEAR ->
  fits shape ->
  sizeof_dtype (getTensorDataType (getEngine context) name) = Ok width ->
  INT_MIN <= product (extents shape) * width < 0 ->
  sizeof_tensor context name = Ok (2 ^ 64 + product (extents shape) * width).
Proof.
  intros shape Hf Hfit Hw Hr. subst shape.
  rewrite sizeof_tensor_linear by exact Hf.
  rewrite (accumulate_size_closed _ _ _ Hfit Hw).
  unfold INT_MIN in Hr.
  rewrite wrap_int_small by (unfold INT_MIN, INT_MAX; lia).
  unfold to_size_t. f_equal.
  rewrite <- (Z.mod_add _ 1) by lia. rewrite Z.mod_small by lia. lia.
Qed.

Lemma sizeof_tensor_negative_product_witness :
  sizeof_tensor
    (one_tensor kFLOAT kLINEAR 1 (-1) (mkDims 2 [-1; 7; 0; 0; 0; 0; 0; 0])) "x"
  = Ok (2 ^ 64 + -7 * 4).
Proof.
  apply (sizeof_tensor_negative_product
           (one_tensor kFLOAT kLINEAR 1 (-1) (mkDims 2 [-1; 7; 0; 0; 0; 0; 0; 0])) "x" 4).
  - reflexivity.
  - unfold fits. simpl. lia.
  - reflexivity.
  - unfold INT_MIN. simpl. lia.
Defined.

(** X5.  For a tensor that is not in linear layout, a components-per-element
    value of zero or below (-1 is what the query answers for a name it does
    not know) leaves the computation without a defined result: the value is
    used as an index into the extents and as a divisor. *)
Theorem sizeof_tensor_no_components (context : IExecutionContext) (name : string) :
  getTensorFormat (getEngine context) name <> kLINEAR ->
  getTensorComponentsPerElement (getEngine context) name <= 0 ->
  sizeof_tensor context name = Undefined.
Proof.
  intros Hf Hc. unfold sizeof_tensor, padded_shape.
  rewrite (TensorFormat_eqb_neq _ Hf).
  set (cpe := getTensorComponentsPerElement (getEngine context) name) in *.
  unfold pad_dimension.
  destruct (Z.eq_dec cpe 0) as [-> | Hne].
  - unfold d_get.
    destruct ((0 <=? 0) && (0 <? Z.of_nat (List.length (d (getTensorShape context name)))));
      [| reflexivity].
    destruct (nth_error (d (getTensorShape context name)) (Z.to_nat 0)); reflexivity.
  - unfold d_get.
    replace (0 <=? cpe) with false by (symmetry; apply Z.leb_gt; lia).
    reflexivity.
Qed.

Lemma sizeof_tensor_no_components_witness :
  sizeof_tensor
    (one_tensor kFLOAT kCHW4 (-1) (-1) (mkDims 2 [3; 7; 0; 0; 0; 0; 0; 0])) "x"
  = Undefined.
Proof.
  apply (sizeof_tensor_no_components
           (one_tensor kFLOAT kCHW4 (-1) (-1) (mkDims 2 [3; 7; 0; 0; 0; 0; 0; 0])) "x").
  - simpl. discriminate.
  - simpl. lia.
Defined.

(** ** The padding, where it lands on an extent *)

(** X6.  For a tensor that is not in linear layout, the extent [x] in the
    slot indexed by the components-per-element value [n] becomes
    [x + n - x mod n]: the least multiple of [n] strictly above [x].  An
    extent that is a multiple of [n] already grows by a whole group. *)
Theorem padding_rounds_past_multiple (context : IExecutionContext) (name : string)
    (x : Z) :
  let shape := getTensorShape context name in
  let n := getTensorComponentsPerElement (getEngine context) name in
  let padded := x + n - x mod n in
  getTensorFormat (getEngine context) name <> kLINEAR ->
  0 < n ->
  nth_error (d shape) (Z.to_nat n) = Some x ->
  0 <= x ->
  x + n <= INT_MAX ->
  padded_shape context name
  = Ok (mkDims (nbDims shape) (list_set (d shape) (Z.to_nat n) padded))
  /\ x < padded <= x + n
  /\ padded mod n = 0
  /\ (x mod n = 0 -> padded = x + n).
Proof.
  intros shape n padded Hf Hn Hx Hx0 Hmax.
  pose proof (Z.mod_pos_bound x n Hn) as Hmod.
  unfold INT_MAX in Hmax.
  split; [| split; [unfold padded; lia | split; [| unfold padded; lia]]].
  - unfold padded_shape. fold shape n. rewrite (TensorFormat_eqb_neq _ Hf).
    unfold pad_dimension.
    rewrite <- (Z2Nat.id n) at 1 by lia. rewrite (d_get_nth _ _ _ Hx).
    cbn [obind]. unfold int_rem.
    replace (n =? 0) with false by (symmetry; apply Z.eqb_neq; lia).
    replace (n =? -1) with false by (symmetry; apply Z.eqb_neq; lia).
    rewrite andb_false_r. cbn [obind].
    rewrite Z.rem_mod_nonneg by lia.
    unfold d_set.
    assert (Z.to_nat n < List.length (d shape))%nat
      by (apply nth_error_Some; congruence).
    replace (0 <=? n) with true by (symmetry; apply Z.leb_le; lia).
    replace (n <? Z.of_nat (List.length (d shape))) with true
      by (symmetry; apply Z.ltb_lt; lia).
    cbn [andb].
    rewrite (wrap_int_small (n - x mod n)) by (unfold INT_MIN, INT_MAX; lia).
    rewrite wrap_int_small by (unfold INT_MIN, INT_MAX; lia).
    unfold padded. do 3 f_equal. lia.
  - unfold padded.
    replace (x + n - x mod n) with ((x / n + 1) * n)
      by (pose proof (Z.div_mod x n ltac:(lia)); lia).
    apply Z.mod_mul. lia.
Qed.

Lemma padding_rounds_past_multiple_witness :
  padded_shape (one_tensor kHALF kCHW2 2 1 (mkDims 4 [1; 2; 4; 4; 0; 0; 0; 0])) "x"
  = Ok (mkDims 4 [1; 2; 6; 4; 0; 0; 0; 0])
  /\ 4 < 6 <= 4 + 2
  /\ 6 mod 2 = 0
  /\ 6 = 4 + 2.
Proof.
  destruct (padding_rounds_past_multiple
              (one_tensor kHALF kCHW2 2 1 (mkDims 4 [1; 2; 4; 4; 0; 0; 0; 0])) "x" 4)
    as (Hshape & Hbounds & Hmultiple & Hgroup).
  - simpl. discriminate.
  - simpl. lia.
  - reflexivity.
  - lia.
  - unfold INT_MAX. simpl. lia.
  - split; [exact Hshape |]. split; [exact Hbounds |].
    split; [exact Hmultiple |]. apply Hgroup. reflexivity.
Defined.

(** ** [HostMemory::randomize] and the loop: what is filled *)

(** X7.  A buffer smaller than one word of the engine is never filled:
    [randomize] writes nothing and draws nothing (a 4-byte tensor, with a
    word of 8 bytes, keeps whatever the allocation held). *)
Theorem randomize_skips_small_buffer (R : RandomEngine) (m : HostMemory)
    (re : engine_state R) (history : list Event) (mem : memory) :
  0 < sizeof_rand_t R ->
  0 <= HostMemory.size_ m < sizeof_rand_t R ->
  HostMemory_randomize R m re history mem
  = mkRun (Ok re) [randomized (HostMemory.ptr_ m) (HostMemory.size_ m)] mem.
Proof.
  intros Hw Hsize. unfold HostMemory_randomize, randomize_region.
  rewrite Z.div_small by exact Hsize. reflexivity.
Qed.

Lemma randomize_skips_small_buffer_witness :
  HostMemory_randomize minstd_rand0 (HostMemory.mk 4096 4) 1 [] (fun _ => 255)
  = mkRun (Ok 1) [randomized 4096 4] (fun _ => 255).
Proof.
  apply (randomize_skips_small_buffer minstd_rand0 (HostMemory.mk 4096 4) 1 []
           (fun _ => 255)); simpl; lia.
Defined.

Section FillProperties.

Variable R : RandomEngine.
Hypothesis word_positive : 0 < sizeof_rand_t R.

Lemma randomize_region_frame (m : HostMemory) (mem : memory) (re : engine_state R)
    (a : Z) :
  0 <= HostMemory.size_ m ->
  ~ (HostMemory.ptr_ m <= a < HostMemory.ptr_ m + HostMemory.size_ m) ->
  fst (randomize_region R m mem re) a = mem a.
Proof.
  intros Hsize Hout. unfold randomize_region.
  apply generate_frame; [exact word_positive |].
  assert (0 <= HostMemory.size_ m / sizeof_rand_t R) by (apply Z.div_pos; lia).
  rewrite Z2Nat.id by lia.
  pose proof (Z.mul_div_le (HostMemory.size_ m) (sizeof_rand_t R) word_positive).
  lia.
Qed.

Lemma randomize_regions_frame (ms : list HostMemory) (a : Z) :
  Forall (fun b => 0 <= HostMemory.size_ b) ms ->
  outside ms a ->
  forall (mem : memory) (re : engine_state R),
    fst (randomize_regions R ms mem re) a = mem a.
Proof.
  intros Hsizes Hout. induction ms as [| m ms IH]; intros mem re; [reflexivity |].
  inversion Hsizes as [| ? ? Hsize Hrest]; subst.
  inversion Hout as [| ? ? Hm Hms]; subst.
  cbn [randomize_regions].
  pose proof (randomize_region_frame m mem re a Hsize Hm) as Hone.
  destruct (randomize_region R m mem re) as [mem1 re1].
  rewrite (IH Hrest Hms). exact Hone.
Qed.


End FillProperties.



Section EngineProperties.

Variable R : RandomEngine.

Lemma advance_add (a b : nat) :
  forall re : engine_state R, advance R (a + b) re = advance R b (advance R a re).
Proof.
  induction a as [| a IH]; intros re; [reflexivity |].
  cbn [Nat.add advance]. apply IH.
Qed.

Lemma randomize_regions_engine (ms : list HostMemory) :
  forall (mem : memory) (re : engine_state R),
    snd (randomize_regions R ms mem re) = advance R (words_of R ms) re.
Proof.
  induction ms as [| m ms IH]; intros mem re; [reflexivity |].
  cbn [randomize_regions words_of fold_right].
  pose proof (generate_engine R (Z.to_nat (HostMemory.size_ m / sizeof_rand_t R))
                mem (HostMemory.ptr_ m) re) as Hone.
  unfold randomize_region.
  destruct (generate R mem (HostMemory.ptr_ m)
              (Z.to_nat (HostMemory.size_ m / sizeof_rand_t R)) re) as [mem1 re1].
  cbn [snd] in Hone. subst re1.
  rewrite IH. fold (words_of R ms). now rewrite advance_add.
Qed.

Lemma fills_engine (l : Locals) (k : nat) :
  forall (mem : memory) (re : engine_state R),
    snd (fills R k l mem re) = advance R (k * words_of R (all_buffers l)) re.
Proof.
  induction k as [| k IH]; intros mem re; [reflexivity |].
  cbn [fills Nat.mul].
  pose proof (randomize_regions_engine (all_buffers l) mem re) as Hone.
  destruct (randomize_regions R (all_buffers l) mem re) as [mem1 re1].
  cbn [snd] in Hone. subst re1.
  rewrite IH. now rewrite advance_add.
Qed.

End EngineProperties.

Lemma counter_after_mod (k : nat) :
  forall i : Z, 0 <= i < 2 ^ 64 -> counter_after k i = (i + Z.of_nat k) mod 2 ^ 64.
Proof.
  induction k as [| k IH]; intros i Hi.
  - cbn [counter_after]. rewrite Z.add_0_r. now rewrite Z.mod_small.
  - cbn [counter_after]. unfold wrap_uint64.
    rewrite IH by (apply Z.mod_pos_bound; lia).
    rewrite Zplus_mod_idemp_l. f_equal. lia.
Qed.

(** X9.  After [n] iterations that did not fail, the loop stands at counter
    [(i + n) mod 2^64] (the [uint64_t] counter wraps and the loop goes on),
    and the engine has been drawn from once for every whole word of every
    buffer in every iteration: [n] times the words of all buffers. *)
Theorem fuzz_loop_counter_and_engine (P : Platform) (R : RandomEngine) (l : Locals)
    (n : nat) (i : Z) (re : engine_state R) (history : list Event) (mem : memory)
    (state : LoopState R) :
  0 <= i < 2 ^ 64 ->
  result (fuzz_loop P R n l i re history mem) = Ok state ->
  state = Iterating ((i + Z.of_nat n) mod 2 ^ 64)
                    (advance R (n * words_of R (all_buffers l)) re).
Proof.
  intros Hi Hok.
  destruct (fuzz_loop_order P R l n i re history mem)
    as (done & partial & _ & _ & _ & Hres).
  rewrite Hok in Hres. destruct Hres as (_ & _ & -> & _).
  now rewrite counter_after_mod, fills_engine.
Qed.

Lemma fuzz_loop_counter_and_engine_witness :
  Iterating 1 (advance minstd_rand0 (3 * 5) 1)
  = Iterating ((18446744073709551614 + Z.of_nat 3) mod 2 ^ 64)
              (advance minstd_rand0 (3 * words_of minstd_rand0 (all_buffers demo_locals)) 1).
Proof.
  apply (fuzz_loop_counter_and_engine (demo_platform None) minstd_rand0 demo_locals
           3 18446744073709551614 1 [] (fun _ => 255)).
  - lia.
  - reflexivity.
Defined.

(** ** [set_io], with the moves of its vectors *)

Section Runs.

Variable P : Platform.

Lemma prepend_nil {A : Type} (r : Run A) : prepend [] r = r.
Proof. now destruct r. Qed.

(** A call, its failure check, and what follows. *)
Lemma call_check_run {A : Type} (e : Event) (ex : exception) (k : Z -> M A)
    (history : list Event) (mem : memory) :
  (err <- call P e ;; v <- check err ex ;; k v) history mem
  = match respond P history e with
    | Some v => prepend [e] (k v (history ++ [e]) mem)
    | None => mkRun (Throw ex) [e] mem
    end.
Proof.
  rewrite bind_eq. cbn [call result emitted heap].
  destruct (respond P history e) as [v |]; [| reflexivity].
  rewrite bind_eq. cbn [check ret result emitted heap].
  now rewrite prepend_nil, app_nil_r.
Qed.

(** A call whose answer is not looked at. *)
Lemma call_ignored_run {A : Type} (e : Event) (c : M A)
    (history : list Event) (mem : memory) :
  (call P e ;; c) history mem = prepend [e] (c (history ++ [e]) mem).
Proof. reflexivity. Qed.

Lemma HostMemory_delete_run {A : Type} (m : HostMemory) (c : M A)
    (history : list Event) (mem : memory) :
  (HostMemory_delete P m ;; c) history mem
  = match respond P history (cudaFreeHost (HostMemory.ptr_ m)) with
    | Some _ => prepend [cudaFreeHost (HostMemory.ptr_ m)]
                        (c (history ++ [cudaFreeHost (HostMemory.ptr_ m)]) mem)
    | None => mkRun Abort [cudaFreeHost (HostMemory.ptr_ m)] mem
    end.
Proof.
  rewrite bind_eq. unfold HostMemory_delete. rewrite bind_eq.
  cbn [call result emitted heap].
  destruct (respond P history (cudaFreeHost (HostMemory.ptr_ m))); reflexivity.
Qed.

Lemma bind_ext {A B : Type} (c : M A) (k k' : A -> M B)
    (history : list Event) (mem : memory) :
  (forall a h m, k a h m = k' a h m) ->
  bind c k history mem = bind c k' history mem.
Proof.
  intros H. rewrite !bind_eq.
  destruct (result (c history mem)); try reflexivity. now rewrite H.
Qed.

Lemma bind_assoc {A B C : Type} (c : M A) (k : A -> M B) (k' : B -> M C)
    (history : list Event) (mem : memory) :
  bind (bind c k) k' history mem = bind c (fun a => bind (k a) k') history mem.
Proof.
  rewrite (bind_eq (bind c k)), (bind_eq c (fun a => bind (k a) k')).
  rewrite (bind_eq c k).
  destruct (result (c history mem)) as [a | e | |]; try reflexivity.
  cbn [prepend result emitted heap]. rewrite bind_eq.
  destruct (result (k a (history ++ emitted (c history mem)) (heap (c history mem))));
    try reflexivity.
  unfold prepend. cbn [result emitted heap]. now rewrite !app_assoc.
Qed.

Lemma bind_cong {A B : Type} (c c' : M A) (k k' : A -> M B)
    (history : list Event) (mem : memory) :
  c history mem = c' history mem ->
  (forall a h m, k a h m = k' a h m) ->
  bind c k history mem = bind c' k' history mem.
Proof.
  intros Hc Hk. rewrite (bind_ext c k k' _ _ Hk).
  rewrite (bind_eq c), (bind_eq c'). now rewrite Hc.
Qed.

Lemma bind_ret {A B : Type} (a : A) (k : A -> M B) (history : list Event) (mem : memory) :
  bind (ret a) k history mem = k a history mem.
Proof.
  rewrite bind_eq. cbn [ret result emitted heap]. now rewrite prepend_nil, app_nil_r.
Qed.

(** *** [push_back] *)

Variable grow : nat -> nat.

Lemma HostMemory_eta (m : HostMemory) :
  HostMemory.mk (HostMemory.ptr_ m) (HostMemory.size_ m) = m.
Proof. now destruct m. Qed.

Lemma relocate_ok (old : list HostMemory) :
  forall (history : list Event) (mem : memory) (moved : list HostMemory),
    result (WithMoves.relocate P old history mem) = Ok moved ->
    moved = old
    /\ emitted (WithMoves.relocate P old history mem)
       = repeat (cudaFreeHost 0) (List.length old)
    /\ heap (WithMoves.relocate P old history mem) = mem.
Proof.
  induction old as [| o old IH]; intros history mem moved H.
  - cbn in *. inversion H. now repeat split.
  - cbn [WithMoves.relocate HostMemory_move] in *.
    rewrite HostMemory_delete_run in *. cbn [HostMemory.ptr_] in *.
    destruct (respond P history (cudaFreeHost 0)); [| discriminate H].
    cbn [prepend result emitted heap] in *. rewrite bind_eq in *.
    destruct (result (WithMoves.relocate P old (history ++ [cudaFreeHost 0]) mem))
      as [rest | | |] eqn:Hrest; try discriminate H.
    destruct (IH _ _ _ Hrest) as (-> & -> & ->).
    cbn [ret prepend result emitted heap] in *. inversion H.
    rewrite HostMemory_eta, app_nil_r. now repeat split.
Qed.

Lemma push_back_ok (v v' : Vector) (m m' : HostMemory)
    (history : list Event) (mem : memory) :
  result (WithMoves.push_back P grow v m history mem) = Ok (v', m') ->
  let n := List.length (Vector.elements v) in
  let full := Nat.eqb n (Vector.capacity v) in
  v' = Vector.mk (Vector.elements v ++ [m]) (if full then grow n else Vector.capacity v)
  /\ m' = HostMemory.mk 0 0
  /\ emitted (WithMoves.push_back P grow v m history mem)
     = repeat (cudaFreeHost 0) (if full then n else O)
  /\ heap (WithMoves.push_back P grow v m history mem) = mem.
Proof.
  intros H. cbv zeta. unfold WithMoves.push_back, HostMemory_move in *.
  rewrite HostMemory_eta in *.
  destruct (Nat.eqb (List.length (Vector.elements v)) (Vector.capacity v)).
  - rewrite bind_eq in *.
    destruct (result (WithMoves.relocate P (Vector.elements v) history mem))
      as [moved | | |] eqn:Hmoved; try discriminate H.
    destruct (relocate_ok _ _ _ _ Hmoved) as (-> & Hem & Hheap).
    cbn [ret prepend result emitted heap] in *. inversion H.
    rewrite Hem, Hheap, app_nil_r. now repeat split.
  - cbn [ret result emitted heap] in *. inversion H. now repeat split.
Qed.

Lemma grown_by_push_next (v : Vector) (m : HostMemory) :
  grown_by_push grow v ->
  let n := List.length (Vector.elements v) in
  grown_by_push grow
    (Vector.mk (Vector.elements v ++ [m])
               (if Nat.eqb n (Vector.capacity v) then grow n else Vector.capacity v)).
Proof.
  unfold grown_by_push. intros H. cbn [Vector.elements Vector.capacity].
  rewrite length_app. cbn [List.length]. rewrite Nat.add_1_r.
  cbn [capacity_after]. now rewrite <- H.
Qed.

Lemma moved_by_push_grown (v : Vector) :
  grown_by_push grow v ->
  (if Nat.eqb (List.length (Vector.elements v)) (Vector.capacity v)
   then List.length (Vector.elements v) else O)
  = moved_by_push grow (List.length (Vector.elements v)).
Proof. unfold grown_by_push, moved_by_push. now intros ->. Qed.

End Runs.

Lemma names_from_length (engine : ICudaEngine) (todo : nat) :
  forall idx : Z, List.length (names_from engine idx todo) = todo.
Proof.
  induction todo as [| todo IH]; intros idx; [reflexivity |].
  cbn [names_from List.length]. now rewrite IH.
Qed.

Section SetIo.

Variable P : Platform.
Variable grow : nat -> nat.

Lemma set_io_from_binds (context : IExecutionContext) (todo : nat) :
  forall (idx : Z) (buffers0 : IOVectors) (history : list Event) (mem : memory)
         (buffers : IOVectors),
    grown_by_push grow (IOVectors.inputs buffers0) ->
    grown_by_push grow (IOVectors.outputs buffers0) ->
    result (WithMoves.set_io_from P grow context idx todo buffers0 history mem)
    = Ok buffers ->
    exists allocated : list HostMemory,
      List.length allocated = todo
      /\ let bound := combine (names_from (getEngine context) idx todo) allocated in
         let n_in := List.length (Vector.elements (IOVectors.inputs buffers0)) in
         let n_out := List.length (Vector.elements (IOVectors.outputs buffers0)) in
         Forall (well_bound context) bound
         /\ Vector.elements (IOVectors.inputs buffers)
            = Vector.elements (IOVectors.inputs buffers0)
              ++ buffers_with kINPUT context bound
         /\ Vector.elements (IOVectors.outputs buffers)
            = Vector.elements (IOVectors.outputs buffers0)
              ++ buffers_with kOUTPUT context bound
         /\ emitted (WithMoves.set_io_from P grow context idx todo buffers0 history mem)
            = bound_events grow context n_in n_out bound
         /\ heap (WithMoves.set_io_from P grow context idx todo buffers0 history mem) = mem
         /\ (forall (k : nat) (nb : string * HostMemory),
                nth_error bound k = Some nb ->
                respond P (history ++ bound_events grow context n_in n_out (firstn k bound))
                        (cudaMallocHost (HostMemory.size_ (snd nb)))
                = Some (HostMemory.ptr_ (snd nb))).
Proof.
  induction todo as [| todo IH];
    intros idx buffers0 history mem buffers Hgin Hgout Hok.
  - cbn in Hok. inversion Hok; subst. exists []. cbn.
    rewrite !app_nil_r. repeat split; try reflexivity; try constructor.
    intros [| k] nb H; discriminate H.
  - cbn [WithMoves.set_io_from] in *.
    rewrite bind_eq in *. cbn [lift result emitted heap] in *.
    destruct (sizeof_tensor context (getIOTensorName (getEngine context) idx))
      as [size | | |] eqn:Hsize; try discriminate Hok.
    rewrite prepend_nil, app_nil_r in *.
    rewrite bind_eq in *. unfold HostMemory_new in *. rewrite call_check_run in *.
    destruct (respond P history (cudaMallocHost size)) as [ptr |] eqn:Hptr;
      [| discriminate Hok].
    cbn [ret prepend result emitted heap app] in *.
    set (buffer := HostMemory.mk ptr size) in *.
    rewrite bind_eq in *.
    destruct (getTensorIOMode (getEngine context) (getIOTensorName (getEngine context) idx))
      eqn:Hmode.
    + discriminate Hok.
    + rewrite call_ignored_run in *. cbn [prepend result emitted heap] in *.
      rewrite bind_eq in *.
      match type of Hok with
      | context [WithMoves.push_back P grow ?v ?b ?h ?m] =>
          destruct (result (WithMoves.push_back P grow v b h m))
            as [[inputs left] | | |] eqn:Hpush
      end; try discriminate Hok.
      destruct (push_back_ok P grow _ _ _ _ _ _ Hpush)
        as (Hinputs & Hleft & Hmoved & Hheap0).
      cbv zeta in Hinputs, Hmoved. rewrite Hleft in *.
      rewrite (moved_by_push_grown grow _ Hgin) in Hmoved.
      rewrite Hmoved, Hheap0 in *.
      cbn [ret prepend result emitted heap fst snd] in *. rewrite app_nil_r in *.
      rewrite HostMemory_delete_run in *. cbn [HostMemory.ptr_] in *.
      destruct (respond P _ (cudaFreeHost 0)); [| discriminate Hok].
      cbn [prepend result emitted heap] in *.
      assert (Hgin' : grown_by_push grow inputs).
      { rewrite Hinputs. now apply grown_by_push_next. }
      destruct (IH _ (IOVectors.mk inputs (IOVectors.outputs buffers0)) _ _ _ Hgin' Hgout Hok)
        as (allocated & Hlen & Hwell & Hin & Hout & Hem & Hheap & Hptrs).
      cbn [IOVectors.inputs IOVectors.outputs] in Hin, Hout, Hem, Hptrs.
      assert (Hn : List.length (Vector.elements inputs)
                   = S (List.length (Vector.elements (IOVectors.inputs buffers0)))).
      { rewrite Hinputs. cbn [Vector.elements]. rewrite length_app. cbn. lia. }
      rewrite Hn in Hem, Hptrs.
      exists (buffer :: allocated). split; [cbn; now rewrite Hlen |].
      cbn [names_from combine].
      repeat split.
      * constructor; [| exact Hwell]. split; [exact Hsize | now left].
      * rewrite Hin, Hinputs. cbn [Vector.elements].
        unfold buffers_with. cbn [filter fst]. rewrite Hmode.
        cbn [TensorIOMode_eqb map snd]. now rewrite <- app_assoc.
      * rewrite Hout. unfold buffers_with. cbn [filter fst]. rewrite Hmode.
        reflexivity.
      * rewrite Hem. cbn [bound_events fst snd]. rewrite Hmode.
        cbn [TensorIOMode_eqb]. unfold binding_call at 1. rewrite Hmode.
        cbn [buffer HostMemory.ptr_ HostMemory.size_ app].
        now rewrite <- ?app_assoc.
      * exact Hheap.
      * intros [| k] nb Hnb.
        -- inversion Hnb; subst. cbn [firstn bound_events].
           rewrite app_nil_r. exact Hptr.
        -- cbn [nth_error] in Hnb. rewrite <- (Hptrs k nb Hnb). f_equal.
           cbn [firstn bound_events fst snd]. rewrite Hmode.
           cbn [TensorIOMode_eqb]. unfold binding_call at 1. rewrite Hmode.
           cbn [buffer HostMemory.ptr_ HostMemory.size_ app].
           now rewrite <- ?app_assoc.
    + rewrite call_ignored_run in *. cbn [prepend result emitted heap] in *.
      rewrite bind_eq in *.
      match type of Hok with
      | context [WithMoves.push_back P grow ?v ?b ?h ?m] =>
          destruct (result (WithMoves.push_back P grow v b h m))
            as [[outputs left] | | |] eqn:Hpush
      end; try discriminate Hok.
      destruct (push_back_ok P grow _ _ _ _ _ _ Hpush)
        as (Houtputs & Hleft & Hmoved & Hheap0).
      cbv zeta in Houtputs, Hmoved. rewrite Hleft in *.
      rewrite (moved_by_push_grown grow _ Hgout) in Hmoved.
      rewrite Hmoved, Hheap0 in *.
      cbn [ret prepend result emitted heap fst snd] in *. rewrite app_nil_r in *.
      rewrite HostMemory_delete_run in *. cbn [HostMemory.ptr_] in *.
      destruct (respond P _ (cudaFreeHost 0)); [| discriminate Hok].
      cbn [prepend result emitted heap] in *.
      assert (Hgout' : grown_by_push grow outputs).
      { rewrite Houtputs. now apply grown_by_push_next. }
      destruct (IH _ (IOVectors.mk (IOVectors.inputs buffers0) outputs) _ _ _ Hgin Hgout' Hok)
        as (allocated & Hlen & Hwell & Hin & Hout & Hem & Hheap & Hptrs).
      cbn [IOVectors.inputs IOVectors.outputs] in Hin, Hout, Hem, Hptrs.
      assert (Hn : List.length (Vector.elements outputs)
                   = S (List.length (Vector.elements (IOVectors.outputs buffers0)))).
      { rewrite Houtputs. cbn [Vector.elements]. rewrite length_app. cbn. lia. }
      rewrite Hn in Hem, Hptrs.
      exists (buffer :: allocated). split; [cbn; now rewrite Hlen |].
      cbn [names_from combine].
      repeat split.
      * constructor; [| exact Hwell]. split; [exact Hsize | now right].
      * rewrite Hin. unfold buffers_with. cbn [filter fst]. rewrite Hmode.
        reflexivity.
      * rewrite Hout, Houtputs. cbn [Vector.elements].
        unfold buffers_with. cbn [filter fst]. rewrite Hmode.
        cbn [TensorIOMode_eqb map snd]. now rewrite <- app_assoc.
      * rewrite Hem. cbn [bound_events fst snd]. rewrite Hmode.
        cbn [TensorIOMode_eqb]. unfold binding_call at 1. rewrite Hmode.
        cbn [buffer HostMemory.ptr_ HostMemory.size_ app].
        now rewrite <- ?app_assoc.
      * exact Hheap.
      * intros [| k] nb Hnb.
        -- inversion Hnb; subst. cbn [firstn bound_events].
           rewrite app_nil_r. exact Hptr.
        -- cbn [nth_error] in Hnb. rewrite <- (Hptrs k nb Hnb). f_equal.
           cbn [firstn bound_events fst snd]. rewrite Hmode.
           cbn [TensorIOMode_eqb]. unfold binding_call at 1. rewrite Hmode.
           cbn [buffer HostMemory.ptr_ HostMemory.size_ app].
           now rewrite <- ?app_assoc.
Qed.

End SetIo.

(** X10.  When [set_io] returns, it has allocated one buffer per I/O tensor,
    in index order, each of the size [sizeof_tensor] gives for its tensor
    and with the pointer [cudaMallocHost] handed back; every tensor is an
    input or an output, the inputs' buffers are [inputs], the outputs'
    buffers are [outputs], both in index order.  The calls made are, per
    tensor: the allocation; the binding of that buffer's pointer to the
    tensor's name; one [cudaFreeHost] of the null pointer for each buffer
    the vector moves when it has to grow; one more for the moved-from local.
    Host memory is not written.  This holds however the vectors grow. *)
Theorem set_io_binds_every_tensor (P : Platform) (grow : nat -> nat)
    (context : IExecutionContext) (history : list Event) (mem : memory)
    (buffers : IOBuffers) :
  result (WithMoves.set_io P grow context history mem) = Ok buffers ->
  exists allocated : list HostMemory,
    let bound := combine (io_tensor_names context) allocated in
    List.length allocated = Z.to_nat (getNbIOTensors (getEngine context))
    /\ List.length bound = Z.to_nat (getNbIOTensors (getEngine context))
    /\ Forall (well_bound context) bound
    /\ IOBuffers.inputs buffers = buffers_with kINPUT context bound
    /\ IOBuffers.outputs buffers = buffers_with kOUTPUT context bound
    /\ emitted (WithMoves.set_io P grow context history mem)
       = bound_events grow context 0 0 bound
    /\ heap (WithMoves.set_io P grow context history mem) = mem
    /\ (forall (k : nat) (nb : string * HostMemory),
           nth_error bound k = Some nb ->
           respond P (history ++ bound_events grow context 0 0 (firstn k bound))
                   (cudaMallocHost (HostMemory.size_ (snd nb)))
           = Some (HostMemory.ptr_ (snd nb))).
Proof.
  intros Hok. unfold WithMoves.set_io in *. rewrite bind_eq in *.
  destruct (result (WithMoves.set_io_from P grow context 0 _ _ history mem))
    as [vectors | | |] eqn:Hfrom; try discriminate Hok.
  assert (Hempty : grown_by_push grow (Vector.mk [] 0)) by reflexivity.
  destruct (set_io_from_binds P grow context _ 0
              (IOVectors.mk (Vector.mk [] 0) (Vector.mk [] 0)) _ _ _ Hempty Hempty Hfrom)
    as (allocated & Hlen & Hwell & Hin & Hout & Hem & Hheap & Hptrs).
  cbn [ret prepend result emitted heap] in *. inversion Hok; subst buffers.
  unfold held.
  cbn [IOVectors.inputs IOVectors.outputs Vector.elements List.length app
       IOBuffers.inputs IOBuffers.outputs] in *.
  exists allocated. unfold io_tensor_names.
  split; [exact Hlen |]. split.
  { rewrite length_combine, names_from_length, Hlen. apply Nat.min_id. }
  split; [exact Hwell |]. split; [exact Hin |]. split; [exact Hout |].
  split; [now rewrite app_nil_r |]. split; [exact Hheap | exact Hptrs].
Qed.

Lemma set_io_binds_every_tensor_witness :
  exists allocated : list HostMemory,
    let P := wide_platform None in
    let context := context_at P 7 in
    let bound := combine (io_tensor_names context) allocated in
    List.length allocated = 4%nat
    /\ List.length bound = 4%nat
    /\ Forall (well_bound context) bound
    /\ [HostMemory.mk 100 84; HostMemory.mk 3100 84; HostMemory.mk 7100 84]
       = buffers_with kINPUT context bound
    /\ [HostMemory.mk 12100 84] = buffers_with kOUTPUT context bound
    /\ emitted (WithMoves.set_io P libstdcxx_growth context [] (fun _ => 0))
       = bound_events libstdcxx_growth context 0 0 bound
    /\ heap (WithMoves.set_io P libstdcxx_growth context [] (fun _ => 0)) = (fun _ => 0)
    /\ (forall (k : nat) (nb : string * HostMemory),
           nth_error bound k = Some nb ->
           respond P ([] ++ bound_events libstdcxx_growth context 0 0 (firstn k bound))
                   (cudaMallocHost (HostMemory.size_ (snd nb)))
           = Some (HostMemory.ptr_ (snd nb))).
Proof.
  apply (set_io_binds_every_tensor (wide_platform None) libstdcxx_growth
           (context_at (wide_platform None) 7) [] (fun _ => 0)
           (IOBuffers.mk [HostMemory.mk 100 84; HostMemory.mk 3100 84;
                          HostMemory.mk 7100 84]
                         [HostMemory.mk 12100 84])).
  reflexivity.
Defined.

(** The calls of [set_io] for an engine with three inputs and an output,
    with the growth of libstdc++: the second input moves one buffer, the
    third moves two. *)
Example set_io_moves_buffers :
  emitted (WithMoves.set_io (wide_platform None) libstdcxx_growth
             (context_at (wide_platform None) 7) [] (fun _ => 0))
  = [cudaMallocHost 84; setInputTensorAddress 7 "in0" 100; cudaFreeHost 0;
     cudaMallocHost 84; setInputTensorAddress 7 "in1" 3100;
     cudaFreeHost 0; cudaFreeHost 0;
     cudaMallocHost 84; setInputTensorAddress 7 "in2" 7100;
     cudaFreeHost 0; cudaFreeHost 0; cudaFreeHost 0;
     cudaMallocHost 84; setTensorAddress 7 "out" 12100; cudaFreeHost 0].
Proof. reflexivity. Qed.

(** *** Nothing allocated is released *)

Section SetIoCalls.

Variable P : Platform.
Variable grow : nat -> nat.

Lemma only_bind_result {A B : Type} (Q : Event -> Prop) (c : M A) (k : A -> M B)
    (good : A -> Prop) :
  only Q c ->
  (forall history mem a, result (c history mem) = Ok a -> good a) ->
  (forall a, good a -> only Q (k a)) ->
  only Q (bind c k).
Proof.
  intros Hc Hgood Hk h m. rewrite bind_eq. specialize (Hc h m).
  destruct (result (c h m)) as [a | | |] eqn:Ha; try exact Hc.
  cbn [prepend emitted]. apply Forall_app. split; [exact Hc |].
  apply Hk. now apply (Hgood h m).
Qed.

(** The destructor of an object that has been moved from. *)
Lemma only_allocation_HostMemory_delete (o : HostMemory) :
  only allocation_call (HostMemory_delete P (snd (HostMemory_move o))).
Proof.
  unfold HostMemory_delete.
  apply only_bind; [apply only_call; reflexivity | intros [v |]; only_steps].
Qed.

Lemma only_allocation_relocate (old : list HostMemory) :
  only allocation_call (WithMoves.relocate P old).
Proof.
  induction old as [| o old IH]; cbn [WithMoves.relocate]; [apply only_ret |].
  apply only_bind; [apply (only_allocation_HostMemory_delete o) | intro].
  apply only_bind; [exact IH | intro; apply only_ret].
Qed.

Lemma only_allocation_push_back (v : Vector) (m : HostMemory) :
  only allocation_call (WithMoves.push_back P grow v m).
Proof.
  unfold WithMoves.push_back. cbn [HostMemory_move].
  destruct (Nat.eqb _ _); [| apply only_ret].
  apply only_bind; [apply only_allocation_relocate | intro; apply only_ret].
Qed.

(** What [push_back] leaves of its argument is an object that has been
    moved from. *)
Lemma push_back_leaves (v : Vector) (m : HostMemory) (pushed : Vector * HostMemory)
    (history : list Event) (mem : memory) :
  result (WithMoves.push_back P grow v m history mem) = Ok pushed ->
  snd pushed = snd (HostMemory_move m).
Proof.
  destruct pushed as [v' m']. intros H.
  now destruct (push_back_ok P grow _ _ _ _ _ _ H) as (_ & -> & _).
Qed.

Lemma only_allocation_set_io_from (context : IExecutionContext) (todo : nat) :
  forall (idx : Z) (buffers : IOVectors),
    only allocation_call (WithMoves.set_io_from P grow context idx todo buffers).
Proof.
  induction todo as [| todo IH]; intros idx buffers; cbn [WithMoves.set_io_from].
  - apply only_ret.
  - apply only_bind; [apply only_lift | intro size].
    apply only_bind; [unfold HostMemory_new; only_steps | intro buffer].
    apply (only_bind_result _ _ _ (fun pushed => snd pushed = snd (HostMemory_move buffer))).
    + destruct (getTensorIOMode _ _); [apply only_abort | |];
        (apply only_bind; [apply only_call; exact I | intro]);
        (apply only_bind; [apply only_allocation_push_back | intro; apply only_ret]).
    + intros history mem pushed.
      destruct (getTensorIOMode _ _); [discriminate | |];
        rewrite call_ignored_run; cbn [prepend result]; rewrite result_bind;
        (destruct (result (WithMoves.push_back P grow _ buffer _ mem))
           as [p | | |] eqn:Hp; try discriminate);
        cbn [ret result]; intros H; inversion H; cbn [snd];
        exact (push_back_leaves _ _ _ _ _ Hp).
    + intros pushed ->.
      apply only_bind;
        [apply (only_allocation_HostMemory_delete buffer) | intro; apply IH].
Qed.

Lemma only_allocation_set_io (context : IExecutionContext) :
  only allocation_call (WithMoves.set_io P grow context).
Proof.
  unfold WithMoves.set_io.
  apply only_bind; [apply only_allocation_set_io_from | intro; apply only_ret].
Qed.

End SetIoCalls.

(** X11.  Whatever happens and however its vectors grow, [set_io] calls
    nothing but [cudaMallocHost], the two address setters and [cudaFreeHost],
    and every pointer it frees is null: each destructor it runs is that of
    an object the move constructor has emptied (lines 78-79), so no region
    it allocated is released, and none is released twice. *)
Theorem set_io_frees_nothing (P : Platform) (grow : nat -> nat)
    (context : IExecutionContext) (history : list Event) (mem : memory) :
  Forall allocation_call (emitted (WithMoves.set_io P grow context history mem)).
Proof. apply only_allocation_set_io. Qed.

(** *** Where the vectors move nothing *)

Section Agreement.

Variable P : Platform.
Variable grow : nat -> nat.

Lemma push_back_empty (m : HostMemory) (history : list Event) (mem : memory) :
  WithMoves.push_back P grow (Vector.mk [] 0) m history mem
  = ret (Vector.mk [m] (grow 0), HostMemory.mk 0 0) history mem.
Proof. now destruct m. Qed.

Lemma count_mode_cons (mode : TensorIOMode) (context : IExecutionContext)
    (name : string) (names : list string) :
  count_mode mode context (name :: names)
  = ((if TensorIOMode_eqb (getTensorIOMode (getEngine context) name) mode
      then 1 else 0) + count_mode mode context names)%nat.
Proof.
  unfold count_mode. cbn [filter].
  now destruct (TensorIOMode_eqb (getTensorIOMode (getEngine context) name) mode).
Qed.

Lemma set_io_from_agrees (context : IExecutionContext) (todo : nat) :
  forall (idx : Z) (buffers : IOVectors) (history : list Event) (mem : memory),
    let names := names_from (getEngine context) idx todo in
    let n_in := List.length (Vector.elements (IOVectors.inputs buffers)) in
    let n_out := List.length (Vector.elements (IOVectors.outputs buffers)) in
    (n_in + count_mode kINPUT context names <= 1)%nat ->
    (n_out + count_mode kOUTPUT context names <= 1)%nat ->
    (n_in = O -> Vector.capacity (IOVectors.inputs buffers) = O) ->
    (n_out = O -> Vector.capacity (IOVectors.outputs buffers) = O) ->
    (b <- WithMoves.set_io_from P grow context idx todo buffers ;; ret (held b))
      history mem
    = set_io_from P context idx todo (held buffers) history mem.
Proof.
  induction todo as [| todo IH]; intros idx buffers history mem;
    cbv zeta; intros Hin Hout Hcin Hcout.
  - cbn [WithMoves.set_io_from set_io_from]. now rewrite bind_ret.
  - cbn [WithMoves.set_io_from set_io_from names_from] in *.
    rewrite count_mode_cons in Hin, Hout.
    rewrite bind_assoc. apply bind_ext. intros size h1 m1.
    rewrite bind_assoc. apply bind_ext. intros buffer h2 m2.
    rewrite bind_assoc.
    destruct buffers as [[els_in cap_in] [els_out cap_out]].
    unfold held in *.
    cbn [IOVectors.inputs IOVectors.outputs Vector.elements Vector.capacity
         IOBuffers.inputs IOBuffers.outputs] in *.
    destruct (getTensorIOMode (getEngine context) (getIOTensorName (getEngine context) idx))
      eqn:Hmode; cbn [TensorIOMode_eqb] in Hin, Hout.
    + reflexivity.
    + destruct els_in as [| x els_in]; [| cbn [List.length] in Hin; lia].
      rewrite (Hcin eq_refl).
      rewrite !bind_assoc, !call_ignored_run. f_equal.
      rewrite bind_assoc, (bind_eq (WithMoves.push_back _ _ _ _)), push_back_empty.
      cbn [ret result emitted heap]. rewrite prepend_nil, app_nil_r.
      rewrite !bind_ret. cbn [fst snd]. rewrite bind_assoc, !HostMemory_delete_run.
      cbn [moved_from HostMemory.ptr_].
      destruct (respond P _ (cudaFreeHost 0)); [| reflexivity].
      f_equal.
      apply (IH (idx + 1) (IOVectors.mk (Vector.mk [buffer] (grow 0))
                                        (Vector.mk els_out cap_out)));
        cbn [IOVectors.inputs IOVectors.outputs Vector.elements Vector.capacity
             List.length] in *; try lia; try exact Hcout.
    + destruct els_out as [| x els_out]; [| cbn [List.length] in Hout; lia].
      rewrite (Hcout eq_refl).
      rewrite !bind_assoc, !call_ignored_run. f_equal.
      rewrite bind_assoc, (bind_eq (WithMoves.push_back _ _ _ _)), push_back_empty.
      cbn [ret result emitted heap]. rewrite prepend_nil, app_nil_r.
      rewrite !bind_ret. cbn [fst snd]. rewrite bind_assoc, !HostMemory_delete_run.
      cbn [moved_from HostMemory.ptr_].
      destruct (respond P _ (cudaFreeHost 0)); [| reflexivity].
      f_equal.
      apply (IH (idx + 1) (IOVectors.mk (Vector.mk els_in cap_in)
                                        (Vector.mk [buffer] (grow 0))));
        cbn [IOVectors.inputs IOVectors.outputs Vector.elements Vector.capacity
             List.length] in *; try lia; try exact Hcin.
Qed.

Lemma set_io_agrees (context : IExecutionContext) (history : list Event) (mem : memory) :
  (count_mode kINPUT context (io_tensor_names context) <= 1)%nat ->
  (count_mode kOUTPUT context (io_tensor_names context) <= 1)%nat ->
  WithMoves.set_io P grow context history mem = set_io P context history mem.
Proof.
  intros Hin Hout. unfold WithMoves.set_io, set_io.
  now apply (set_io_from_agrees context _ 0
               (IOVectors.mk (Vector.mk [] 0) (Vector.mk [] 0))).
Qed.

End Agreement.

(** X12.  As long as a unit has at most one input and at most one output,
    its vectors move nothing, and [set_io] runs the same with and without
    the moves, for every platform and every growth: the same outcome, the
    same calls, the same memory. *)
Theorem set_io_exact_without_moves (P : Platform) (grow : nat -> nat)
    (context : IExecutionContext) (history : list Event) (mem : memory) :
  (count_mode kINPUT context (io_tensor_names context) <= 1)%nat ->
  (count_mode kOUTPUT context (io_tensor_names context) <= 1)%nat ->
  WithMoves.set_io P grow context history mem = set_io P context history mem.
Proof. apply set_io_agrees. Qed.

Lemma set_io_exact_without_moves_witness :
  WithMoves.set_io (demo_platform None) libstdcxx_growth
                   (context_at (demo_platform None) 7) [] (fun _ => 0)
  = set_io (demo_platform None) (context_at (demo_platform None) 7) [] (fun _ => 0).
Proof.
  apply (set_io_exact_without_moves (demo_platform None) libstdcxx_growth
           (context_at (demo_platform None) 7) [] (fun _ => 0));
    apply le_n.
Defined.

(** X13.  On a platform all of whose engines have at most one input and at
    most one output, [main] runs the same with and without the moves. *)
Theorem main_exact_without_moves (P : Platform) (R : RandomEngine) (grow : nat -> nat)
    (fuel : nat) (history : list Event) (mem : memory) :
  (forall (ptr : Z) (mode : TensorIOMode),
      mode <> kNONE ->
      (count_mode mode (context_at P ptr) (io_tensor_names (context_at P ptr)) <= 1)%nat) ->
  WithMoves.main P R grow fuel history mem = main P R fuel history mem.
Proof.
  intros Hone. unfold WithMoves.main, main.
  apply bind_cong; [| reflexivity].
  unfold WithMoves.load_and_bind, WithMoves.load, load_and_bind.
  repeat (rewrite bind_assoc; apply bind_ext; intros).
  rewrite bind_ret. unfold WithMoves.bind_and_create. cbn [fst snd].
  apply bind_cong; [apply set_io_agrees; apply Hone; discriminate | intros].
  apply bind_cong; [apply set_io_agrees; apply Hone; discriminate | reflexivity].
Qed.

Lemma main_exact_without_moves_witness :
  WithMoves.main (demo_platform None) minstd_rand0 libstdcxx_growth 2 [] (fun _ => 0)
  = main (demo_platform None) minstd_rand0 2 [] (fun _ => 0).
Proof.
  apply (main_exact_without_moves (demo_platform None) minstd_rand0 libstdcxx_growth 2
           [] (fun _ => 0)).
  intros ptr [| |] Hmode; [now elim Hmode | apply le_n | apply le_n].
Defined.

(** ** Failures end the run at the failing call *)

Lemma d_get_no_throw (shape : Dims) (i : Z) (ex : exception) :
  d_get shape i <> Throw ex.
Proof.
  unfold d_get.
  destruct ((0 <=? i) && (i <? Z.of_nat (List.length (d shape)))); [| discriminate].
  destruct (nth_error (d shape) (Z.to_nat i)); discriminate.
Qed.

Lemma multiply_extents_no_throw (shape : Dims) (todo : nat) (ex : exception) :
  forall dim size : Z, multiply_extents shape dim todo size <> Throw ex.
Proof.
  induction todo as [| todo IH]; intros dim size; cbn [multiply_extents];
    [discriminate |].
  pose proof (d_get_no_throw shape dim ex) as Hget.
  destruct (d_get shape dim) as [x | e | |]; cbn [obind]; try discriminate.
  - apply IH.
  - congruence.
Qed.

Lemma padded_shape_no_throw (context : IExecutionContext) (name : string)
    (ex : exception) :
  padded_shape context name <> Throw ex.
Proof.
  unfold padded_shape.
  destruct (negb (TensorFormat_eqb _ kLINEAR)); [| discriminate].
  unfold pad_dimension.
  set (shape := getTensorShape context name).
  set (n := getTensorComponentsPerElement (getEngine context) name).
  pose proof (d_get_no_throw shape n ex) as Hget.
  destruct (d_get shape n) as [x | e | |]; cbn [obind]; try discriminate;
    [| congruence].
  unfold int_rem. destruct (n =? 0); [discriminate |].
  destruct ((x =? INT_MIN) && (n =? -1)); [discriminate |].
  cbn [obind]. unfold d_set.
  destruct ((0 <=? n) && (n <? Z.of_nat (List.length (d shape)))); discriminate.
Qed.

Lemma sizeof_tensor_throws (context : IExecutionContext) (name : string)
    (ex : exception) :
  sizeof_tensor context name = Throw ex -> unlisted_type ex.
Proof.
  unfold sizeof_tensor. intros H.
  pose proof (padded_shape_no_throw context name ex) as Hpad.
  destruct (padded_shape context name) as [shape | e | |]; cbn [obind] in H;
    try discriminate; [| congruence].
  unfold accumulate_size in H.
  pose proof (multiply_extents_no_throw shape (Z.to_nat (nbDims shape)) ex 0 1) as Hmul.
  destruct (multiply_extents shape 0 (Z.to_nat (nbDims shape)) 1) as [s | e | |];
    cbn [obind] in H; try discriminate; [| congruence].
  destruct (getTensorDataType (getEngine context) name); cbn in H; try discriminate.
  inversion H. reflexivity.
Qed.

Section FailFast.

Variable P : Platform.
Variable R : RandomEngine.

Lemma fail_fast_never {A : Type} (c : M A) :
  (forall history mem ex, result (c history mem) <> Throw ex) -> fail_fast P c.
Proof. intros Hnever history mem ex H. now elim (Hnever history mem ex). Qed.

Lemma fail_fast_ret {A : Type} (a : A) : fail_fast P (ret a).
Proof. apply fail_fast_never. discriminate. Qed.

Lemma fail_fast_abort {A : Type} : fail_fast P (@abort A).
Proof. apply fail_fast_never. discriminate. Qed.

Lemma fail_fast_call (e : Event) : fail_fast P (call P e).
Proof. apply fail_fast_never. discriminate. Qed.

Lemma fail_fast_bind {A B : Type} (c : M A) (k : A -> M B) :
  fail_fast P c -> (forall a, fail_fast P (k a)) -> fail_fast P (bind c k).
Proof.
  intros Hc Hk history mem ex H. rewrite result_bind in H. rewrite emitted_bind.
  specialize (Hc history mem).
  destruct (result (c history mem)) as [a | e | |]; try discriminate.
  - destruct (Hk a _ _ _ H) as [Hu | (before & e & Hem & Hnone & Hrep)];
      [now left | right].
    exists (emitted (c history mem) ++ before), e.
    rewrite Hem. rewrite app_assoc. rewrite <- app_assoc in Hnone. now repeat split.
  - inversion H; subst e.
    destruct (Hc ex eq_refl) as [Hu | (before & e & Hem & Hnone & Hrep)];
      [now left | right].
    exists before, e. rewrite app_nil_r. now repeat split.
Qed.

Lemma fail_fast_call_check {A : Type} (e : Event) (ex : exception) (k : Z -> M A) :
  reported_call e ex ->
  (forall v, fail_fast P (k v)) ->
  fail_fast P (err <- call P e ;; v <- check err ex ;; k v).
Proof.
  intros Hrep Hk history mem ex' H. rewrite call_check_run in *.
  destruct (respond P history e) as [v |] eqn:Hanswer.
  - cbn [prepend result emitted] in *.
    destruct (Hk v _ _ _ H) as [Hu | (before & e' & Hem & Hnone & Hrep')];
      [now left | right].
    exists ([e] ++ before), e'. rewrite Hem.
    rewrite app_assoc. rewrite <- app_assoc in Hnone. now repeat split.
  - right. inversion H; subst ex'. exists [], e. cbn [emitted app].
    rewrite app_nil_r. now repeat split.
Qed.

Ltac fail_fast_steps :=
  repeat first
    [ apply fail_fast_ret | apply fail_fast_abort
    | apply fail_fast_call_check; [cbn; auto | intro]
    | apply fail_fast_call
    | apply fail_fast_bind; [| intro] ].

Lemma fail_fast_lift_sizeof_tensor (context : IExecutionContext) (name : string) :
  fail_fast P (lift (sizeof_tensor context name)).
Proof.
  intros history mem ex H. left. cbn in H. now apply sizeof_tensor_throws in H.
Qed.

Lemma fail_fast_HostMemory_delete (m : HostMemory) : fail_fast P (HostMemory_delete P m).
Proof. unfold HostMemory_delete. fail_fast_steps. destruct a; fail_fast_steps. Qed.

Lemma fail_fast_push_back (grow : nat -> nat) (v : Vector) (m : HostMemory) :
  fail_fast P (WithMoves.push_back P grow v m).
Proof.
  unfold WithMoves.push_back. cbn [HostMemory_move].
  destruct (Nat.eqb _ _); [| apply fail_fast_ret].
  apply fail_fast_bind; [| intro; apply fail_fast_ret].
  induction (Vector.elements v) as [| o old IH];
    cbn [WithMoves.relocate HostMemory_move]; [apply fail_fast_ret |].
  apply fail_fast_bind; [apply fail_fast_HostMemory_delete | intro].
  apply fail_fast_bind; [exact IH | intro; apply fail_fast_ret].
Qed.

Lemma fail_fast_set_io_from (grow : nat -> nat) (context : IExecutionContext)
    (todo : nat) :
  forall (idx : Z) (buffers : IOVectors),
    fail_fast P (WithMoves.set_io_from P grow context idx todo buffers).
Proof.
  induction todo as [| todo IH]; intros idx buffers; cbn [WithMoves.set_io_from].
  - apply fail_fast_ret.
  - apply fail_fast_bind; [apply fail_fast_lift_sizeof_tensor | intro size].
    apply fail_fast_bind; [unfold HostMemory_new; fail_fast_steps | intro buffer].
    apply fail_fast_bind.
    + destruct (getTensorIOMode _ _); [apply fail_fast_abort | |];
        (apply fail_fast_bind; [apply fail_fast_call | intro]);
        (apply fail_fast_bind; [apply fail_fast_push_back | intro; apply fail_fast_ret]).
    + intro pushed.
      apply fail_fast_bind; [apply fail_fast_HostMemory_delete | intro; apply IH].
Qed.

Lemma fail_fast_set_io (grow : nat -> nat) (context : IExecutionContext) :
  fail_fast P (WithMoves.set_io P grow context).
Proof.
  unfold WithMoves.set_io.
  apply fail_fast_bind; [apply fail_fast_set_io_from | intro; apply fail_fast_ret].
Qed.





End FailFast.

(** X14.  An exception out of [set_io] is [std::invalid_argument], for a
    tensor of an unlisted element type, or [std::bad_alloc], and then the
    last call made is the [cudaMallocHost] that failed: nothing is bound or
    allocated after a failed allocation. *)
Theorem set_io_throws (P : Platform) (grow : nat -> nat) (context : IExecutionContext)
    (history : list Event) (mem : memory) (ex : exception) :
  result (WithMoves.set_io P grow context history mem) = Throw ex ->
  ex = invalid_argument "dtype must be variant of DataType"
  \/ (ex = bad_alloc
      /\ exists (before : list Event) (size : Z),
           emitted (WithMoves.set_io P grow context history mem)
           = before ++ [cudaMallocHost size]
           /\ respond P (history ++ before) (cudaMallocHost size) = None).
Proof.
  intros H.
  destruct (fail_fast_set_io P grow context _ _ _ H)
    as [Hu | (before & e & Hem & Hnone & Hrep)]; [now left | right].
  pose proof (only_allocation_set_io P grow context history mem) as Hcalls.
  rewrite Hem in Hcalls.
  apply Forall_app in Hcalls. destruct Hcalls as [_ Hlast].
  inversion Hlast as [| ? ? He _]; subst.
  destruct e; cbn in He, Hrep; try contradiction.
  split; [exact Hrep |]. now exists before, size.
Qed.

Lemma set_io_throws_witness :
  let P := wide_platform (Some 7%nat) in
  let run := WithMoves.set_io P libstdcxx_growth (context_at P 7) [] (fun _ => 0) in
  bad_alloc = invalid_argument "dtype must be variant of DataType"
  \/ (bad_alloc = bad_alloc
      /\ exists (before : list Event) (size : Z),
           emitted run = before ++ [cudaMallocHost size]
           /\ respond P ([] ++ before) (cudaMallocHost size) = None).
Proof.
  apply (set_io_throws (wide_platform (Some 7%nat)) libstdcxx_growth
           (context_at (wide_platform (Some 7%nat)) 7) [] (fun _ => 0) bad_alloc).
  reflexivity.
Defined.

(** ** [std::abort] *)

Lemma d_get_no_abort (shape : Dims) (i : Z) : d_get shape i <> Abort.
Proof.
  unfold d_get.
  destruct ((0 <=? i) && (i <? Z.of_nat (List.length (d shape)))); [| discriminate].
  destruct (nth_error (d shape) (Z.to_nat i)); discriminate.
Qed.

Lemma multiply_extents_no_abort (shape : Dims) (todo : nat) :
  forall dim size : Z, multiply_extents shape dim todo size <> Abort.
Proof.
  induction todo as [| todo IH]; intros dim size; cbn [multiply_extents];
    [discriminate |].
  pose proof (d_get_no_abort shape dim) as Hget.
  destruct (d_get shape dim) as [x | e | |]; cbn [obind]; try discriminate;
    [apply IH | congruence].
Qed.

Lemma padded_shape_no_abort (context : IExecutionContext) (name : string) :
  padded_shape context name <> Abort.
Proof.
  unfold padded_shape.
  destruct (negb (TensorFormat_eqb _ kLINEAR)); [| discriminate].
  unfold pad_dimension.
  set (shape := getTensorShape context name).
  set (n := getTensorComponentsPerElement (getEngine context) name).
  pose proof (d_get_no_abort shape n) as Hget.
  destruct (d_get shape n) as [x | e | |]; cbn [obind]; try discriminate;
    [| congruence].
  unfold int_rem. destruct (n =? 0); [discriminate |].
  destruct ((x =? INT_MIN) && (n =? -1)); [discriminate |].
  cbn [obind]. unfold d_set.
  destruct ((0 <=? n) && (n <? Z.of_nat (List.length (d shape)))); discriminate.
Qed.

Lemma sizeof_tensor_no_abort (context : IExecutionContext) (name : string) :
  sizeof_tensor context name <> Abort.
Proof.
  unfold sizeof_tensor. intros H.
  pose proof (padded_shape_no_abort context name) as Hpad.
  destruct (padded_shape context name) as [shape | e | |]; cbn [obind] in H;
    try discriminate; [| congruence].
  unfold accumulate_size in H.
  pose proof (multiply_extents_no_abort shape (Z.to_nat (nbDims shape)) 0 1) as Hmul.
  destruct (multiply_extents shape 0 (Z.to_nat (nbDims shape)) 1) as [s | e | |];
    cbn [obind] in H; try discriminate; [| congruence].
  destruct (getTensorDataType (getEngine context) name); discriminate.
Qed.

Section AbortCause.

Variable P : Platform.
Variable R : RandomEngine.
Variable grow : nat -> nat.

Lemma abort_cause_never (Q : Prop) {A : Type} (c : M A) :
  (forall history mem, result (c history mem) <> Abort) -> abort_cause P Q c.
Proof. intros Hnever history mem H. now elim (Hnever history mem). Qed.

Lemma abort_cause_ret (Q : Prop) {A : Type} (a : A) : abort_cause P Q (ret a).
Proof. apply abort_cause_never. discriminate. Qed.

Lemma abort_cause_call (Q : Prop) (e : Event) : abort_cause P Q (call P e).
Proof. apply abort_cause_never. discriminate. Qed.

Lemma abort_cause_weaken (Q Q' : Prop) {A : Type} (c : M A) :
  (Q -> Q') -> abort_cause P Q c -> abort_cause P Q' c.
Proof.
  intros Himp Hc history mem H. destruct (Hc history mem H) as [HQ | Hfree];
    [left; now apply Himp | now right].
Qed.

Lemma abort_cause_bind (Q : Prop) {A B : Type} (c : M A) (k : A -> M B) :
  abort_cause P Q c -> (forall a, abort_cause P Q (k a)) -> abort_cause P Q (bind c k).
Proof.
  intros Hc Hk history mem H. rewrite result_bind in H. rewrite emitted_bind.
  specialize (Hc history mem).
  destruct (result (c history mem)) as [a | e | |]; try discriminate.
  - destruct (Hk a _ _ H) as [HQ | (before & Hem & Hnone)]; [now left | right].
    exists (emitted (c history mem) ++ before).
    rewrite Hem. rewrite app_assoc. rewrite <- app_assoc in Hnone. now split.
  - destruct (Hc eq_refl) as [HQ | (before & Hem & Hnone)]; [now left | right].
    exists before. rewrite app_nil_r. now split.
Qed.

Lemma abort_cause_call_check (Q : Prop) {A : Type} (e : Event) (ex : exception)
    (k : Z -> M A) :
  (forall v, abort_cause P Q (k v)) ->
  abort_cause P Q (err <- call P e ;; v <- check err ex ;; k v).
Proof.
  intros Hk. apply abort_cause_bind; [apply abort_cause_call | intros [v |]].
  - apply abort_cause_bind; [apply abort_cause_ret | intro; apply Hk].
  - apply abort_cause_never. discriminate.
Qed.

Ltac abort_cause_steps :=
  repeat first
    [ apply abort_cause_ret
    | apply abort_cause_call_check; intro
    | apply abort_cause_call
    | apply abort_cause_bind; [| intro] ].

Lemma abort_cause_HostMemory_delete (Q : Prop) (o : HostMemory) :
  abort_cause P Q (HostMemory_delete P (snd (HostMemory_move o))).
Proof.
  intros history mem H. right. exists [].
  unfold HostMemory_delete in *. rewrite bind_eq in *.
  cbn [call result emitted heap HostMemory_move snd HostMemory.ptr_] in *.
  rewrite app_nil_r.
  destruct (respond P history (cudaFreeHost 0)); [discriminate H |].
  now split.
Qed.

Lemma abort_cause_bind_result (Q : Prop) {A B : Type} (c : M A) (k : A -> M B)
    (good : A -> Prop) :
  abort_cause P Q c ->
  (forall history mem a, result (c history mem) = Ok a -> good a) ->
  (forall a, good a -> abort_cause P Q (k a)) ->
  abort_cause P Q (bind c k).
Proof.
  intros Hc Hgood Hk history mem H. rewrite result_bind in H. rewrite emitted_bind.
  specialize (Hc history mem).
  destruct (result (c history mem)) as [a | e | |] eqn:Ha; try discriminate.
  - destruct (Hk a (Hgood _ _ _ Ha) _ _ H) as [HQ | (before & Hem & Hnone)];
      [now left | right].
    exists (emitted (c history mem) ++ before).
    rewrite Hem. rewrite app_assoc. rewrite <- app_assoc in Hnone. now split.
  - destruct (Hc eq_refl) as [HQ | (before & Hem & Hnone)]; [now left | right].
    exists before. rewrite app_nil_r. now split.
Qed.

Lemma abort_cause_push_back (Q : Prop) (v : Vector) (m : HostMemory) :
  abort_cause P Q (WithMoves.push_back P grow v m).
Proof.
  unfold WithMoves.push_back. cbn [HostMemory_move].
  destruct (Nat.eqb _ _); [| apply abort_cause_ret].
  apply abort_cause_bind; [| intro; apply abort_cause_ret].
  induction (Vector.elements v) as [| o old IH];
    cbn [WithMoves.relocate]; [apply abort_cause_ret |].
  apply abort_cause_bind; [apply (abort_cause_HostMemory_delete Q o) | intro].
  apply abort_cause_bind; [exact IH | intro; apply abort_cause_ret].
Qed.

Lemma abort_cause_set_io_from (context : IExecutionContext) (todo : nat) :
  forall (idx : Z) (buffers : IOVectors),
    abort_cause P (has_other_mode context (names_from (getEngine context) idx todo))
                (WithMoves.set_io_from P grow context idx todo buffers).
Proof.
  induction todo as [| todo IH]; intros idx buffers;
    cbn [WithMoves.set_io_from names_from].
  - apply abort_cause_ret.
  - apply abort_cause_bind.
    { apply abort_cause_never. intros history mem. cbn [lift result].
      apply sizeof_tensor_no_abort. }
    intro size. apply abort_cause_bind.
    { unfold HostMemory_new. abort_cause_steps. }
    intro buffer.
    apply (abort_cause_bind_result _ _ _
             (fun pushed => snd pushed = snd (HostMemory_move buffer))).
    + destruct (getTensorIOMode (getEngine context)
                  (getIOTensorName (getEngine context) idx)) eqn:Hmode.
      * intros history mem _. left.
        exists (getIOTensorName (getEngine context) idx). split; [now left | exact Hmode].
      * apply abort_cause_bind; [apply abort_cause_call | intro].
        apply abort_cause_bind; [apply abort_cause_push_back | intro].
        apply abort_cause_ret.
      * apply abort_cause_bind; [apply abort_cause_call | intro].
        apply abort_cause_bind; [apply abort_cause_push_back | intro].
        apply abort_cause_ret.
    + intros history mem pushed.
      destruct (getTensorIOMode _ _); [discriminate | |];
        rewrite call_ignored_run; cbn [prepend result]; rewrite result_bind;
        (destruct (result (WithMoves.push_back P grow _ buffer _ mem))
           as [p | | |] eqn:Hp; try discriminate);
        cbn [ret result]; intros H; inversion H; cbn [snd];
        exact (push_back_leaves P grow _ _ _ _ _ Hp).
    + intros pushed ->.
      apply abort_cause_bind; [apply (abort_cause_HostMemory_delete _ buffer) |].
      intros _. eapply abort_cause_weaken; [| apply IH].
      intros (name & Hin & Hmode). exists name. split; [now right | exact Hmode].
Qed.

Lemma abort_cause_set_io (context : IExecutionContext) :
  abort_cause P (has_other_mode context (io_tensor_names context))
              (WithMoves.set_io P grow context).
Proof.
  unfold WithMoves.set_io.
  apply abort_cause_bind; [apply abort_cause_set_io_from | intro; apply abort_cause_ret].
Qed.


End AbortCause.

(** X16.  [set_io] ends in [std::abort] in two cases only: one of the I/O
    tensors is neither an input nor an output, or a [cudaFreeHost] of a
    moved-from buffer's null pointer failed, which is then the last call
    made. *)
Theorem set_io_aborts (P : Platform) (grow : nat -> nat) (context : IExecutionContext)
    (history : list Event) (mem : memory) :
  result (WithMoves.set_io P grow context history mem) = Abort ->
  has_other_mode context (io_tensor_names context)
  \/ exists before : list Event,
       emitted (WithMoves.set_io P grow context history mem)
       = before ++ [cudaFreeHost 0]
       /\ respond P (history ++ before) (cudaFreeHost 0) = None.
Proof. apply abort_cause_set_io. Qed.

Lemma set_io_aborts_witness :
  let P := wide_platform (Some 5%nat) in
  let context := context_at P 7 in
  has_other_mode context (io_tensor_names context)
  \/ exists before : list Event,
       emitted (WithMoves.set_io P libstdcxx_growth context [] (fun _ => 0))
       = before ++ [cudaFreeHost 0]
       /\ respond P ([] ++ before) (cudaFreeHost 0) = None.
Proof.
  apply (set_io_aborts (wide_platform (Some 5%nat)) libstdcxx_growth
           (context_at (wide_platform (Some 5%nat)) 7) [] (fun _ => 0)).
  reflexivity.
Defined.



(** * The run of [main] *)

(** ** Loading *)

Tactic Notation "load" "as" ident(x) ident(Hx) :=
  rewrite call_check_run;
  match goal with
  | |- context [respond ?Q ?h ?e] => destruct (respond Q h e) as [x |] eqn:Hx
  end;
  repeat rewrite <- app_assoc in Hx; cbn [app] in Hx.

Ltac close_load runtime engine0 engine1 :=
  exists runtime, engine0, engine1;
  unfold loaded;
  cbn [prepend ret result emitted heap app loading_calls firstn List.length];
  split; [eexists; cbn [app]; reflexivity |];
  split; [repeat split; intros Hlen; first [assumption | exfalso; lia] |];
  split; [reflexivity |];
  first
    [ split; [reflexivity | split; assumption]
    | split; [eexists; reflexivity |];
      match goal with
      | |- exists before e, ?l = before ++ [e] /\ _ =>
          exists (removelast l), (last l createInferRuntime)
      end;
      cbn [removelast last app];
      split; [reflexivity |]; split; [rewrite ?app_nil_r; assumption |]; cbn; auto ].

Lemma load_run (P : Platform) (history : list Event) (mem : memory) :
  let run := WithMoves.load P history mem in
  exists runtime engine0 engine1 : Z,
    let calls := loading_calls runtime engine0 engine1 in
    is_prefix (emitted run) calls
    /\ loaded P history (emitted run) runtime engine0 engine1
    /\ heap run = mem
    /\ match result run with
       | Ok (c0, c1) =>
           emitted run = calls
           /\ respond P (history ++ firstn 5 calls) (createExecutionContext engine0) = Some c0
           /\ respond P (history ++ firstn 6 calls) (createExecutionContext engine1) = Some c1
       | Throw ex =>
           (exists what, ex = runtime_error what)
           /\ exists (before : list Event) (e : Event),
                emitted run = before ++ [e]
                /\ respond P (history ++ before) e = None
                /\ reported_as before e ex
       | Abort | Undefined => False
       end.
Proof.
  intros run. unfold run, WithMoves.load.
  load as runtime H1; [| close_load 0 0 0].
  load as file0 H2; [| close_load 0 0 0].
  load as file1 H3; [| close_load 0 0 0].
  load as engine0 H4; [| close_load runtime 0 0].
  load as engine1 H5; [| close_load runtime 0 0].
  load as c0 H6; [| close_load runtime engine0 0].
  load as c1 H7; [| close_load runtime engine0 engine1].
  close_load runtime engine0 engine1.
Qed.

(** ** Binding *)

Lemma only_weaken {A : Type} (Q Q' : Event -> Prop) (c : M A) :
  (forall e, Q e -> Q' e) -> only Q c -> only Q' c.
Proof.
  intros Himp Hc history mem. eapply Forall_impl; [exact Himp | apply Hc].
Qed.

Section Binding.

Variable P : Platform.
Variable grow : nat -> nat.

Lemma Stream_new_run (history : list Event) (mem : memory) :
  Stream_new P history mem
  = mkRun (match respond P history cudaStreamCreate with
           | Some ptr => Ok (Stream.mk ptr)
           | None => Throw (runtime_error "failed to create stream")
           end) [cudaStreamCreate] mem.
Proof. apply (checked_call_run _ _ _ Stream.mk). Qed.

Lemma set_io_heap (context : IExecutionContext) (history : list Event) (mem : memory)
    (buffers : IOBuffers) :
  result (WithMoves.set_io P grow context history mem) = Ok buffers ->
  heap (WithMoves.set_io P grow context history mem) = mem.
Proof.
  unfold WithMoves.set_io. rewrite bind_eq.
  destruct (result (WithMoves.set_io_from P grow context 0 _ _ history mem))
    as [vectors | | |] eqn:Hfrom; try discriminate.
  assert (Hempty : grown_by_push grow (Vector.mk [] 0)) by reflexivity.
  destruct (set_io_from_binds P grow context _ 0
              (IOVectors.mk (Vector.mk [] 0) (Vector.mk [] 0)) _ _ _ Hempty Hempty Hfrom)
    as (_ & _ & _ & _ & _ & _ & Hheap & _).
  intros _. cbn [ret prepend heap]. exact Hheap.
Qed.

Lemma only_bind_and_create (context0 context1 : Z) :
  only stream_or_allocation (WithMoves.bind_and_create P grow context0 context1).
Proof.
  unfold WithMoves.bind_and_create, Stream_new.
  repeat first
    [ apply (only_weaken allocation_call);
      [intros e He; now left | apply only_allocation_set_io]
    | apply only_ret | apply only_check
    | apply only_call; right; reflexivity
    | apply only_bind; [| intro] ].
Qed.

(** The buffers and streams [bind_and_create] yields, and the calls it made
    for them. *)
Lemma bind_and_create_ok (c0 c1 : Z) (history : list Event) (mem : memory)
    (context0 context1 : IExecutionContext) (buffers0 buffers1 : IOBuffers)
    (stream0 stream1 : Stream) :
  result (WithMoves.bind_and_create P grow c0 c1 history mem)
  = Ok (context0, context1, (buffers0, buffers1), (stream0, stream1)) ->
  let bound0 := emitted (WithMoves.set_io P grow (context_at P c0) history mem) in
  let bound1 := emitted (WithMoves.set_io P grow (context_at P c1) (history ++ bound0) mem) in
  context0 = context_at P c0 /\ context1 = context_at P c1
  /\ result (WithMoves.set_io P grow (context_at P c0) history mem) = Ok buffers0
  /\ result (WithMoves.set_io P grow (context_at P c1) (history ++ bound0) mem) = Ok buffers1
  /\ emitted (WithMoves.bind_and_create P grow c0 c1 history mem)
     = bound0 ++ bound1 ++ [cudaStreamCreate; cudaStreamCreate]
  /\ respond P (history ++ bound0 ++ bound1) cudaStreamCreate = Some (Stream.ptr_ stream0)
  /\ respond P (history ++ bound0 ++ bound1 ++ [cudaStreamCreate]) cudaStreamCreate
     = Some (Stream.ptr_ stream1)
  /\ heap (WithMoves.bind_and_create P grow c0 c1 history mem) = mem.
Proof.
  intros H. cbv zeta. unfold WithMoves.bind_and_create in *.
  rewrite bind_eq in *.
  destruct (result (WithMoves.set_io P grow (context_at P c0) history mem))
    as [b0 | | |] eqn:Hb0; try discriminate H.
  rewrite (set_io_heap _ _ _ _ Hb0) in *.
  set (bound0 := emitted (WithMoves.set_io P grow (context_at P c0) history mem)) in *.
  rewrite bind_eq in *.
  destruct (result (WithMoves.set_io P grow (context_at P c1) (history ++ bound0) mem))
    as [b1 | | |] eqn:Hb1; try discriminate H.
  rewrite (set_io_heap _ _ _ _ Hb1) in *.
  set (bound1 := emitted (WithMoves.set_io P grow (context_at P c1) (history ++ bound0) mem))
    in *.
  rewrite bind_eq, Stream_new_run in *. cbn [result emitted heap] in *.
  destruct (respond P ((history ++ bound0) ++ bound1) cudaStreamCreate) as [s0 |] eqn:Hs0;
    [| discriminate H].
  rewrite bind_eq, Stream_new_run in *. cbn [result emitted heap] in *.
  destruct (respond P (((history ++ bound0) ++ bound1) ++ [cudaStreamCreate])
              cudaStreamCreate) as [s1 |] eqn:Hs1; [| discriminate H].
  cbn [ret prepend result emitted heap app] in *. inversion H; subst.
  repeat rewrite <- app_assoc in Hs0. repeat rewrite <- app_assoc in Hs1.
  cbn [Stream.ptr_]. repeat split; assumption || reflexivity.
Qed.

Lemma firstn_loading_calls (runtime engine0 engine1 : Z) (rest : list Event) :
  firstn 7 (loading_calls runtime engine0 engine1 ++ rest)
  = loading_calls runtime engine0 engine1.
Proof. reflexivity. Qed.

(** The contexts, buffers and streams lines 214-258 yield. *)
Lemma load_and_bind_ok (history : list Event) (mem : memory)
    (context0 context1 : IExecutionContext) (buffers0 buffers1 : IOBuffers)
    (stream0 stream1 : Stream) :
  let run := WithMoves.load_and_bind P grow history mem in
  result run = Ok (context0, context1, (buffers0, buffers1), (stream0, stream1)) ->
  let loading := firstn 7 (emitted run) in
  let bound0 := emitted (WithMoves.set_io P grow context0 (history ++ loading) mem) in
  let bound1 :=
    emitted (WithMoves.set_io P grow context1 (history ++ loading ++ bound0) mem) in
  units_of P history (emitted run) (context_ptr context0) (Stream.ptr_ stream0)
           (context_ptr context1) (Stream.ptr_ stream1)
  /\ context0 = context_at P (context_ptr context0)
  /\ context1 = context_at P (context_ptr context1)
  /\ emitted run = loading ++ bound0 ++ bound1 ++ [cudaStreamCreate; cudaStreamCreate]
  /\ result (WithMoves.set_io P grow context0 (history ++ loading) mem) = Ok buffers0
  /\ result (WithMoves.set_io P grow context1 (history ++ loading ++ bound0) mem)
     = Ok buffers1
  /\ heap run = mem.
Proof.
  intros run. unfold run, WithMoves.load_and_bind. clear run.
  rewrite bind_eq.
  destruct (load_run P history mem) as (runtime & engine0 & engine1 & _ & Hloaded & Hheap & Hres).
  cbv zeta in Hres.
  destruct (result (WithMoves.load P history mem)) as [[c0 c1] | | |];
    try discriminate.
  destruct Hres as (Hcalls & Hc0 & Hc1). rewrite Hcalls, Hheap in *.
  cbn [fst snd prepend result emitted heap]. intros H.
  destruct (bind_and_create_ok _ _ _ _ _ _ _ _ _ _ H)
    as (-> & -> & Hb0 & Hb1 & Hem & Hs0 & Hs1 & Hheap').
  repeat rewrite <- app_assoc in Hem. repeat rewrite <- app_assoc in Hb1.
  repeat rewrite <- app_assoc in Hs0. repeat rewrite <- app_assoc in Hs1.
  rewrite Hem, firstn_loading_calls. cbn [context_at context_ptr].
  fold (context_at P c0). fold (context_at P c1).
  split.
  { exists runtime, engine0, engine1,
      (emitted (WithMoves.set_io P grow (context_at P c0)
                  (history ++ loading_calls runtime engine0 engine1) mem)
       ++ emitted (WithMoves.set_io P grow (context_at P c1)
                     (history ++ loading_calls runtime engine0 engine1
                      ++ emitted (WithMoves.set_io P grow (context_at P c0)
                                    (history ++ loading_calls runtime engine0 engine1) mem))
                     mem)).
    cbv zeta. repeat rewrite <- app_assoc.
    split; [reflexivity |]. split.
    { apply Forall_app. split; apply only_allocation_set_io. }
    split.
    { unfold loaded in *. cbn [loading_calls List.length] in Hloaded.
      destruct Hloaded as (Hr & He0 & He1).
      repeat split; intros _; [apply Hr | apply He0 | apply He1]; lia. }
    repeat split; assumption. }
  repeat split; try assumption; reflexivity.
Qed.

Lemma only_binding_load_and_bind : only binding_event (WithMoves.load_and_bind P grow).
Proof.
  unfold WithMoves.load_and_bind, WithMoves.load.
  repeat first
    [ apply (only_weaken stream_or_allocation);
      [intros [] [He | He]; try exact I; try contradiction; discriminate He
      | apply only_bind_and_create]
    | apply only_ret | apply only_check
    | apply only_call; exact I | apply only_bind; [| intro] ].
Qed.

End Binding.

(** X18.  [main] loads in a fixed order: the runtime, the two plan files
    opened one after the other, the two engines deserialised by the runtime
    that [createInferRuntime] answered, the two contexts created from the
    engines that the two deserialisations answered, the first from
    [model0.plan]'s and the second from [model1.plan]'s.  A failure cuts the
    sequence short with a [std::runtime_error]; only after all seven calls
    does [main] allocate, bind and create streams, starting with [set_io] for
    the context the first [createExecutionContext] answered. *)
Theorem load_and_bind_order (P : Platform) (grow : nat -> nat)
    (history : list Event) (mem : memory) :
  let run := WithMoves.load_and_bind P grow history mem in
  exists runtime engine0 engine1 : Z,
    let calls := loading_calls runtime engine0 engine1 in
    loaded P history (emitted run) runtime engine0 engine1
    /\ ((is_prefix (emitted run) calls
         /\ exists what, result run = Throw (runtime_error what))
        \/ (exists (c0 c1 : Z) (rest : list Event),
               emitted run = calls ++ rest
               /\ Forall stream_or_allocation rest
               /\ respond P (history ++ firstn 5 calls) (createExecutionContext engine0)
                  = Some c0
               /\ respond P (history ++ firstn 6 calls) (createExecutionContext engine1)
                  = Some c1
               /\ is_prefix
                    (emitted (WithMoves.set_io P grow (context_at P c0)
                                (history ++ calls) mem))
                    rest)).
Proof.
  intros run. unfold run, WithMoves.load_and_bind. clear run. rewrite bind_eq.
  destruct (load_run P history mem)
    as (runtime & engine0 & engine1 & Hprefix & Hloaded & Hheap & Hres).
  exists runtime, engine0, engine1. cbv zeta in *.
  destruct (result (WithMoves.load P history mem)) as [[c0 c1] | ex | |];
    try contradiction.
  - destruct Hres as (Hcalls & Hc0 & Hc1). rewrite Hcalls, Hheap in *.
    cbn [fst snd prepend result emitted heap]. split.
    { unfold loaded in *. cbn [loading_calls List.length] in Hloaded.
      destruct Hloaded as (Hr & He0 & He1).
      repeat split; intros _; [apply Hr | apply He0 | apply He1]; lia. }
    right. exists c0, c1. eexists. split; [reflexivity |].
    split; [apply only_bind_and_create |]. split; [exact Hc0 |]. split; [exact Hc1 |].
    unfold WithMoves.bind_and_create. rewrite emitted_bind. now eexists.
  - cbn [result emitted]. split; [exact Hloaded |]. left. split; [exact Hprefix |].
    destruct Hres as ([what ->] & _). now exists what.
Qed.

(** ** Setup *)

(** C7.  Whatever the platform answers and however the vectors grow, the
    trace of [main] is the binding phase, then the calls of lines 260-278,
    then the loop.  The setup calls are made for the two units of the run:
    the context the first [createExecutionContext] answered with the stream
    the first [cudaStreamCreate] answered, and the second with the second.
    For each unit they are, in this order: one [enqueueV3] and the wait for
    it (the warm-up); [cudaStreamBeginCapture], the same [enqueueV3] once
    more, [cudaStreamEndCapture], with no synchronisation in between; the
    instantiation of the graph that this [cudaStreamEndCapture] answered;
    one wait.  A failing call cuts the sequence short, and the loop emits
    nothing unless the sequence is complete: both graphs are instantiated
    before the first iteration. *)
Theorem main_setup_order (P : Platform) (R : RandomEngine) (grow : nat -> nat)
    (fuel : nat) (history : list Event) (mem : memory) :
  let run := WithMoves.main P R grow fuel history mem in
  exists (binding setup loop : list Event) (c0 s0 g0 c1 s1 g1 : Z),
    emitted run = binding ++ setup ++ loop
    /\ Forall binding_event binding
    /\ is_prefix setup (setup_events c0 s0 g0 c1 s1 g1)
    /\ Forall loop_event loop
    /\ (loop <> [] -> setup = setup_events c0 s0 g0 c1 s1 g1)
    /\ (forall r, result run = Ok r -> setup = setup_events c0 s0 g0 c1 s1 g1)
    /\ (setup <> [] -> units_of P history binding c0 s0 c1 s1)
    /\ captured P (history ++ binding) setup c0 s0 g0 c1 s1 g1.
Proof.
  intros run. unfold run, WithMoves.main. rewrite emitted_bind, result_bind.
  pose proof (only_binding_load_and_bind P grow history mem) as Hbinding.
  pose proof (load_and_bind_ok P grow history mem) as Hunits. cbv zeta in Hunits.
  set (run1 := WithMoves.load_and_bind P grow history mem) in *.
  exists (emitted run1).
  destruct (result run1)
    as [[[[context0 context1] [buffers0 buffers1]] [stream0 stream1]] | ex | |].
  2-4: exists [], [], 0, 0, 0, 0, 0, 0;
       (split; [reflexivity |]); (split; [exact Hbinding |]);
       (split; [now eexists |]); (split; [constructor |]);
       (split; [intros H; now elim H |]);
       (split; [intros r H; discriminate H |]);
       (split; [intros H; now elim H |]);
       split; cbn [List.length]; intros; lia.
  destruct (Hunits _ _ _ _ _ _ eq_refl) as (Hunits' & _).
  cbv beta iota. rewrite emitted_bind, result_bind.
  destruct (warm_up_and_capture_order P context0 context1 stream0 stream1
              (history ++ emitted run1) (heap run1))
    as (_ & g0 & g1 & Hprefix & Hcaptured & Hfull).
  set (run2 := warm_up_and_capture P context0 context1 stream0 stream1
                 (history ++ emitted run1) (heap run1)) in *.
  exists (emitted run2).
  destruct (result run2) as [[graph_exec0 graph_exec1] | ex | |]; try contradiction.
  - destruct Hfull as [Hfull _]. cbv beta iota. rewrite emitted_bind.
    set (l := mkLocals buffers0 buffers1 stream0 stream1 graph_exec0 graph_exec1).
    pose proof (only_fuzz_loop P R l fuel 0 (default_constructed R)
                  ((history ++ emitted run1) ++ emitted run2) (heap run2)) as Hloop.
    set (run3 := fuzz_loop P R fuel l 0 (default_constructed R)
                   ((history ++ emitted run1) ++ emitted run2) (heap run2)) in *.
    exists (emitted run3), (context_ptr context0), (Stream.ptr_ stream0), g0,
      (context_ptr context1), (Stream.ptr_ stream1), g1.
    split.
    { do 2 f_equal. destruct (result run3) as [[i re |] | ex | |];
        cbn [after_loop ret emitted]; now rewrite app_nil_r. }
    split; [exact Hbinding |]. split; [exact Hprefix |]. split; [exact Hloop |].
    split; [intros; exact Hfull |]. split; [intros; exact Hfull |].
    split; [intros; exact Hunits' | exact Hcaptured].
  - exists [], (context_ptr context0), (Stream.ptr_ stream0), g0,
      (context_ptr context1), (Stream.ptr_ stream1), g1.
    split; [reflexivity |]. split; [exact Hbinding |].
    split; [exact Hprefix |]. split; [constructor |].
    split; [intros H; now elim H |]. split; [intros r H; discriminate H |].
    split; [intros; exact Hunits' | exact Hcaptured].
Qed.


(** ** Failures *)




(** ** No normal return *)

Lemma main_no_return (P : Platform) (R : RandomEngine) (grow : nat -> nat) (fuel : nat)
    (history : list Event) (mem : memory) (code : Z) :
  result (WithMoves.main P R grow fuel history mem) <> Ok (Some code).
Proof.
  unfold WithMoves.main. rewrite result_bind.
  destruct (result (WithMoves.load_and_bind P grow history mem))
    as [[[[context0 context1] [buffers0 buffers1]] [stream0 stream1]] | | |];
    try discriminate.
  cbv beta iota. rewrite result_bind.
  destruct (result (warm_up_and_capture P context0 context1 stream0 stream1 _ _))
    as [[graph_exec0 graph_exec1] | | |]; try discriminate.
  cbv beta iota. rewrite result_bind.
  match goal with
  | |- context [fuzz_loop P R fuel ?l ?i ?re ?h ?m] =>
      destruct (fuzz_loop_order P R l fuel i re h m) as (done & partial & _ & _ & _ & Hres);
      destruct (result (fuzz_loop P R fuel l i re h m)) as [state | | |]
  end; try discriminate.
  destruct Hres as (_ & _ & -> & _). cbn. discriminate.
Qed.

(** C8.  [main] has no normal return: however long its loop is followed and
    however the vectors grow, the run is still iterating or has ended in an
    uncaught exception or an abort, never in [return 0;].  The loop itself
    is never left: after [n] iterations that did not fail it stands at its
    condition with the counter advanced [n] times, and followed one step
    further it starts iteration [n + 1] by printing that counter; the only
    other way out of the loop is the exception of a failed launch or wait. *)
Theorem main_never_returns (P : Platform) (R : RandomEngine) :
  (forall (grow : nat -> nat) (fuel : nat) (history : list Event) (mem : memory)
          (code : Z),
      result (WithMoves.main P R grow fuel history mem) <> Ok (Some code))
  /\ (forall (n : nat) (l : Locals) (i : Z) (re : engine_state R)
             (history : list Event) (mem : memory),
         match result (fuzz_loop P R n l i re history mem) with
         | Ok state =>
             (exists re', state = Iterating (counter_after n i) re')
             /\ exists more : list Event,
                  emitted (fuzz_loop P R (S n) l i re history mem)
                  = emitted (fuzz_loop P R n l i re history mem)
                    ++ cout_counter (counter_after n i) :: more
         | Throw ex => failed_in_loop ex
         | Abort | Undefined => False
         end).
Proof.
  split.
  - intros grow fuel history mem code. apply main_no_return.
  - intros n l i re history mem.
    pose proof (fuzz_loop_continues P R l n i re history mem) as Hnext.
    destruct (fuzz_loop_order P R l n i re history mem)
      as (done & partial & _ & _ & _ & Hres).
    destruct (result (fuzz_loop P R n l i re history mem)) as [state | ex | |];
      try contradiction.
    + destruct Hres as (_ & _ & -> & _). split; [now eexists |].
      now apply (Hnext _ eq_refl).
    + now destruct Hres as (_ & _ & Hex & _).
Qed.

(** X20.  With the moves of the vectors as well, [main] has no normal
    return: however long its loop is followed, on whatever platform, it
    never yields [return 0;]. *)
Theorem main_never_returns_with_moves (P : Platform) (R : RandomEngine)
    (grow : nat -> nat) (fuel : nat) (history : list Event) (mem : memory) (code : Z) :
  result (WithMoves.main P R grow fuel history mem) <> Ok (Some code).
Proof. apply main_no_return. Qed.

(** ** Runs on concrete platforms *)

Example main_two_iterations :
  let run := WithMoves.main (demo_platform None) minstd_rand0 libstdcxx_growth 2 []
                            (fun _ => 0) in
  result run = Ok None
  /\ emitted run
     = [createInferRuntime; ifstream_open "model0.plan"; ifstream_open "model1.plan";
        deserializeCudaEngine 100 "model0.plan"; deserializeCudaEngine 100 "model1.plan";
        createExecutionContext 3100; createExecutionContext 4100;
        cudaMallocHost 84; setInputTensorAddress 5100 "in" 7100; cudaFreeHost 0;
        cudaMallocHost 84; setTensorAddress 5100 "out" 10100; cudaFreeHost 0;
        cudaMallocHost 84; setInputTensorAddress 6100 "in" 13100; cudaFreeHost 0;
        cudaMallocHost 84; setTensorAddress 6100 "out" 16100; cudaFreeHost 0;
        cudaStreamCreate; cudaStreamCreate]
       ++ setup_events 5100 19100 27100 6100 20100 32100
       ++ [cout_counter 0;
           randomized 7100 84; randomized 10100 84;
           randomized 13100 84; randomized 16100 84;
           cudaGraphLaunch 28100 19100; cudaGraphLaunch 33100 20100;
           cudaStreamSynchronize 19100; cudaStreamSynchronize 20100;
           cout_counter 1;
           randomized 7100 84; randomized 10100 84;
           randomized 13100 84; randomized 16100 84;
           cudaGraphLaunch 28100 19100; cudaGraphLaunch 33100 20100;
           cudaStreamSynchronize 19100; cudaStreamSynchronize 20100].
Proof. split; vm_compute; reflexivity. Qed.

(** The wait for unit A's stream fails in the first iteration: the
    exception ends the run before unit B's stream is waited for. *)
Example main_wait_fails :
  let run := WithMoves.main (demo_platform (Some 42%nat)) minstd_rand0 libstdcxx_growth 5
                            [] (fun _ => 0) in
  result run = Throw (runtime_error "failed to synchronize stream")
  /\ skipn 35 (emitted run)
     = [cout_counter 0;
        randomized 7100 84; randomized 10100 84;
        randomized 13100 84; randomized 16100 84;
        cudaGraphLaunch 28100 19100; cudaGraphLaunch 33100 20100;
        cudaStreamSynchronize 19100].
Proof. split; vm_compute; reflexivity. Qed.

(** A run with three inputs per unit: the binding phase with its moves, then
    setup and one iteration over all eight buffers. *)
Example main_with_three_inputs :
  let run := WithMoves.main (wide_platform None) minstd_rand0 libstdcxx_growth 1 []
                            (fun _ => 0) in
  result run = Ok None
  /\ firstn 37 (emitted run)
     = [createInferRuntime; ifstream_open "model0.plan"; ifstream_open "model1.plan";
        deserializeCudaEngine 100 "model0.plan"; deserializeCudaEngine 100 "model1.plan";
        createExecutionContext 3100; createExecutionContext 4100;
        cudaMallocHost 84; setInputTensorAddress 5100 "in0" 7100; cudaFreeHost 0;
        cudaMallocHost 84; setInputTensorAddress 5100 "in1" 10100;
        cudaFreeHost 0; cudaFreeHost 0;
        cudaMallocHost 84; setInputTensorAddress 5100 "in2" 14100;
        cudaFreeHost 0; cudaFreeHost 0; cudaFreeHost 0;
        cudaMallocHost 84; setTensorAddress 5100 "out" 19100; cudaFreeHost 0;
        cudaMallocHost 84; setInputTensorAddress 6100 "in0" 22100; cudaFreeHost 0;
        cudaMallocHost 84; setInputTensorAddress 6100 "in1" 25100;
        cudaFreeHost 0; cudaFreeHost 0;
        cudaMallocHost 84; setInputTensorAddress 6100 "in2" 29100;
        cudaFreeHost 0; cudaFreeHost 0; cudaFreeHost 0;
        cudaMallocHost 84; setTensorAddress 6100 "out" 34100; cudaFreeHost 0]
  /\ skipn 53 (emitted run)
     = [cout_counter 0;
        randomized 7100 84; randomized 10100 84; randomized 14100 84;
        randomized 19100 84;
        randomized 22100 84; randomized 25100 84; randomized 29100 84;
        randomized 34100 84;
        cudaGraphLaunch 46100 37100; cudaGraphLaunch 51100 38100;
        cudaStreamSynchronize 37100; cudaStreamSynchronize 38100].
Proof. repeat split; vm_compute; reflexivity. Qed.

(** ** The draws, buffer after buffer *)

Lemma drawn_advance (R : RandomEngine) (n k : nat) (re : engine_state R) :
  drawn R k (advance R n re) = drawn R (n + k) re.
Proof. unfold drawn. now rewrite advance_add. Qed.

(** X22.  [for_each] fills the buffers in order from the one engine: word
    [k] of a buffer holds the draw numbered by the words of all buffers
    before it plus [k], provided no later buffer of the list covers that
    word. *)
Theorem for_each_randomize_draw_order (R : RandomEngine)
    (before after : list HostMemory) (m : HostMemory) (re : engine_state R)
    (history : list Event) (mem : memory) (k j : Z) :
  let w := sizeof_rand_t R in
  let a := HostMemory.ptr_ m + k * w + j in
  0 < w ->
  Forall (fun b => 0 <= HostMemory.size_ b) after ->
  0 <= k < HostMemory.size_ m / w ->
  0 <= j < w ->
  outside after a ->
  heap (for_each_randomize R (before ++ m :: after) re history mem) a
  = byte_of (drawn R (words_of R before + Z.to_nat k) re) j.
Proof.
  intros w a Hw Hsizes Hk Hj Hout.
  rewrite for_each_randomize_run. cbn [heap].
  rewrite randomize_regions_app.
  pose proof (randomize_regions_engine R before mem re) as Hengine.
  destruct (randomize_regions R before mem re) as [mem1 re1].
  cbn [snd] in Hengine. subst re1.
  cbn [randomize_regions].
  assert (Hm : fst (randomize_region R m mem1 (advance R (words_of R before) re)) a
               = byte_of (drawn R (words_of R before + Z.to_nat k) re) j).
  { unfold randomize_region, a. fold w.
    rewrite <- (Z2Nat.id k) at 1 by lia.
    rewrite generate_content; [apply f_equal2; [apply drawn_advance | reflexivity]
                              | exact Hw | lia | exact Hj]. }
  destruct (randomize_region R m mem1 (advance R (words_of R before) re)) as [mem2 re2].
  rewrite (randomize_regions_frame R Hw after a Hsizes Hout). exact Hm.
Qed.

Lemma for_each_randomize_draw_order_witness :
  heap (for_each_randomize minstd_rand0
          ([HostMemory.mk 0 16] ++ HostMemory.mk 32 20 :: [HostMemory.mk 64 8])
          1 [] (fun _ => 255))
       (32 + 1 * 8 + 0)
  = byte_of (drawn minstd_rand0 (2 + Z.to_nat 1) 1) 0.
Proof.
  apply (for_each_randomize_draw_order minstd_rand0
           [HostMemory.mk 0 16] [HostMemory.mk 64 8] (HostMemory.mk 32 20) 1 []
           (fun _ => 255) 1 0).
  - simpl. lia.
  - repeat constructor; simpl; lia.
  - simpl. change (20 / 8) with 2. lia.
  - simpl. lia.
  - repeat constructor; simpl; lia.
Defined.
